(** * The recurrent layer of mlpack: truncated back-propagation through time

    A shallow embedding of [src/mlpack/methods/ann/layer/recurrent_impl.hpp].

    The orchestrator ([Recurrent]) owns seven sub-modules which it only ever
    touches through the visitor interface of the layer abstraction
    ([ForwardVisitor], [BackwardVisitor], ...).  The visitors, the composite
    containers and Armadillo's matrices live outside this file of the
    repository, so they enter the development as two interfaces ([Matrix]
    and [Visitors]); the orchestrator's own code (its counters, its error
    accumulator, its history buffer and the order in which it drives the
    visitors) is translated line by line. *)

From Stdlib Require Import ZArith List Bool Lia.
Import ListNotations.
Open Scope Z_scope.

(** ** [size_t] arithmetic

    [rho] and the three step counters are [size_t]: 64-bit unsigned, with
    wrap-around on [++] and on [-]. *)

Definition size_modulus : Z := 2 ^ 64.

Definition wrap (z : Z) : Z := z mod size_modulus.

(** [n++] *)
Definition size_incr (n : Z) : Z := wrap (n + 1).

(** [a - b] *)
Definition size_sub (a b : Z) : Z := wrap (a - b).

(** [v.size()] of a [std::vector] *)
Definition size {A : Type} (v : list A) : Z := Z.of_nat (length v).

(** [v[i]]; reading outside the vector is undefined behaviour, which the
    model reports as [None]. *)
Definition at_index {A : Type} (v : list A) (i : Z) : option A :=
  if i <? 0 then None else nth_error v (Z.to_nat i).

(** ** The seven sub-modules

    Each member of the class holds a pointer to one layer object; the
    members are the handles through which every visitor is applied. *)

Inductive LayerTypes : Type :=
| startModule
| inputModule
| feedbackModule
| transferModule
| initialModule
| mergeModule
| recurrentModule.

Definition LayerTypes_eqb (a b : LayerTypes) : bool :=
  match a, b with
  | startModule, startModule
  | inputModule, inputModule
  | feedbackModule, feedbackModule
  | transferModule, transferModule
  | initialModule, initialModule
  | mergeModule, mergeModule
  | recurrentModule, recurrentModule => true
  | _, _ => false
  end.

(** ** Interfaces of the collaborators *)

(** What the orchestrator uses of [arma::Mat<eT>]. *)
Class Matrix (Mat : Type) : Type := {
  (** a default-constructed matrix *)
  empty_mat : Mat;
  (** [m.is_empty()] *)
  is_empty : Mat -> bool;
  (** [m.zeros()]: every element set to zero, the shape kept *)
  zeros : Mat -> Mat;
  (** [a += b] *)
  plus : Mat -> Mat -> Mat;
  empty_mat_is_empty : is_empty empty_mat = true;
  zeros_idempotent : forall m, zeros (zeros m) = zeros m;
  zeros_of_empty : forall m, is_empty m = true -> zeros m = m
}.

(** A matrix is zero when zeroing it changes nothing. *)
Definition is_zero {Mat : Type} `{Matrix Mat} (m : Mat) : Prop := zeros m = m.

(** The visitor interface over the store [Net] of the sub-modules' state.

    A visitor that fills an output argument returns the value it wrote
    together with the store it leaves behind; the caller stores that value
    in the slot it passed ([assign_outputParameter], [assign_delta] when
    the slot is a module's own output parameter or delta, which the source
    reaches through the reference [outputParameterVisitor] and
    [deltaVisitor] return).  Arguments passed with [std::move] are only
    bound to rvalue references: the layers read them and leave them
    intact. *)
Class Visitors (Mat Net : Type) : Type := {
  (** [apply_visitor(ForwardVisitor(input, output), l)] *)
  ForwardVisitor : Mat -> LayerTypes -> Net -> Net * Mat;
  (** [apply_visitor(BackwardVisitor(input, error, delta), l)] *)
  BackwardVisitor : Mat -> Mat -> LayerTypes -> Net -> Net * Mat;
  (** [apply_visitor(GradientVisitor(input, delta), l)] *)
  GradientVisitor : Mat -> Mat -> LayerTypes -> Net -> Net;
  (** [apply_visitor(GradientZeroVisitor(), l)] *)
  GradientZeroVisitor : LayerTypes -> Net -> Net;
  (** [apply_visitor(outputParameterVisitor, l)], read *)
  outputParameterVisitor : LayerTypes -> Net -> Mat;
  (** [apply_visitor(deltaVisitor, l)], read *)
  deltaVisitor : LayerTypes -> Net -> Mat;
  (** a write through [apply_visitor(outputParameterVisitor, l)] *)
  assign_outputParameter : LayerTypes -> Mat -> Net -> Net;
  (** a write through [apply_visitor(deltaVisitor, l)] *)
  assign_delta : LayerTypes -> Mat -> Net -> Net;
  (** [apply_visitor(AddVisitor(child), container)] *)
  AddVisitor : LayerTypes -> LayerTypes -> Net -> Net;
  (** [apply_visitor(weightSizeVisitor, l)]; the size it returns is dropped
      by every caller in this file *)
  weightSizeVisitor : LayerTypes -> Net -> Net;
  (** [apply_visitor(DeleteVisitor(), l)] *)
  DeleteVisitor : LayerTypes -> Net -> Net;
  (** [l = new Sequential<>(args...)]; [None] when no argument is given *)
  new_Sequential : option bool -> LayerTypes -> Net -> Net;
  (** [l = new AddMerge<>(model, run)] *)
  new_AddMerge : bool -> bool -> LayerTypes -> Net -> Net;
  outputParameter_assigned :
    forall l m n, outputParameterVisitor l (assign_outputParameter l m n) = m;
  delta_assigned :
    forall l m n, deltaVisitor l (assign_delta l m n) = m
}.


(** ** The orchestrator *)

Section Orchestrator.

Context {Mat Net : Type} {MatOps : Matrix Mat} {Vis : Visitors Mat Net}.

(** The data members of [Recurrent]; [net] is the state of the objects
    the seven module members point to. *)
Record Recurrent : Type := mkRecurrent {
  net : Net;
  network : list LayerTypes;
  rho : Z;
  forwardStep : Z;
  backwardStep : Z;
  gradientStep : Z;
  deterministic : bool;
  ownsLayer : bool;
  recurrentError : Mat;
  feedbackOutputParameter : list Mat
}.

(** Lines 78-105: the wiring performed by the value constructor. *)
Definition constructor_wiring (n : Net) (nw : list LayerTypes)
  : Net * list LayerTypes :=
  let n := new_Sequential None initialModule n in
  let n := new_AddMerge false false mergeModule n in
  let n := new_Sequential (Some false) recurrentModule n in
  let n := AddVisitor inputModule initialModule n in
  let n := AddVisitor startModule initialModule n in
  let n := AddVisitor transferModule initialModule n in
  let n := weightSizeVisitor startModule n in
  let n := weightSizeVisitor inputModule n in
  let n := weightSizeVisitor feedbackModule n in
  let n := weightSizeVisitor transferModule n in
  let n := AddVisitor inputModule mergeModule n in
  let n := AddVisitor feedbackModule mergeModule n in
  let n := AddVisitor mergeModule recurrentModule n in
  let n := AddVisitor transferModule recurrentModule n in
  let nw := nw ++ [initialModule] in
  let nw := nw ++ [mergeModule] in
  let nw := nw ++ [feedbackModule] in
  let nw := nw ++ [recurrentModule] in
  (n, nw).

(** [Recurrent(start, input, feedback, transfer, rho)]; [leaves] is the
    store holding the four copies the member initialisers allocate. *)
Definition Recurrent_of (leaves : Net) (rho0 : Z) : Recurrent :=
  let (n, nw) := constructor_wiring leaves [] in
  {| net := n;
     network := nw;
     rho := rho0;
     forwardStep := 0;
     backwardStep := 0;
     gradientStep := 0;
     deterministic := false;
     ownsLayer := true;
     recurrentError := empty_mat;
     feedbackOutputParameter := [] |}.

(** [Recurrent()], lines 29-38; [n] is the store before any module is
    allocated.  The seven module members are left unset: such an object is
    there to be loaded into or destroyed, and no visitor may be applied
    through it before [serialize] has built its modules. *)
Definition Recurrent_default (n : Net) : Recurrent :=
  {| net := n;
     network := [];
     rho := 0;
     forwardStep := 0;
     backwardStep := 0;
     gradientStep := 0;
     deterministic := false;
     ownsLayer := false;
     recurrentError := empty_mat;
     feedbackOutputParameter := [] |}.

(** Lines 263-291: the wiring [serialize] performs when loading. *)
Definition serialize_wiring (n : Net) (nw : list LayerTypes)
  : Net * list LayerTypes :=
  let n := new_Sequential None initialModule n in
  let n := new_AddMerge false false mergeModule n in
  let n := new_Sequential (Some false) recurrentModule n in
  let n := AddVisitor inputModule initialModule n in
  let n := AddVisitor startModule initialModule n in
  let n := AddVisitor transferModule initialModule n in
  let n := weightSizeVisitor startModule n in
  let n := weightSizeVisitor inputModule n in
  let n := weightSizeVisitor feedbackModule n in
  let n := weightSizeVisitor transferModule n in
  let n := AddVisitor inputModule mergeModule n in
  let n := AddVisitor feedbackModule mergeModule n in
  let n := AddVisitor mergeModule recurrentModule n in
  let n := AddVisitor transferModule recurrentModule n in
  let nw := nw ++ [initialModule] in
  let nw := nw ++ [mergeModule] in
  let nw := nw ++ [feedbackModule] in
  let nw := nw ++ [recurrentModule] in
  (n, nw).

(** [serialize] with a loading archive. The archive's part is [restore]
    (what reading the four leaf layers does to the store) and the two
    values read for [rho] and [ownsLayer]. *)
Definition serialize_loading (restore : Net -> Net) (rho0 : Z) (owns : bool)
    (r : Recurrent) : Recurrent :=
  let n := DeleteVisitor recurrentModule (net r) in
  let n := DeleteVisitor initialModule n in
  let n := DeleteVisitor startModule n in
  let nw := @nil LayerTypes in
  let n := restore n in
  let (n, nw) := serialize_wiring n nw in
  {| net := n;
     network := nw;
     rho := rho0;
     forwardStep := forwardStep r;
     backwardStep := backwardStep r;
     gradientStep := gradientStep r;
     deterministic := deterministic r;
     ownsLayer := owns;
     recurrentError := recurrentError r;
     feedbackOutputParameter := feedbackOutputParameter r |}.

(** Modelled from the spec: the mode toggle of the external interface (the
    class declaration with its accessor is not part of this source file);
    it sets the [deterministic] flag and nothing else. *)
Definition set_deterministic (d : bool) (r : Recurrent) : Recurrent :=
  {| net := net r;
     network := network r;
     rho := rho r;
     forwardStep := forwardStep r;
     backwardStep := backwardStep r;
     gradientStep := gradientStep r;
     deterministic := d;
     ownsLayer := ownsLayer r;
     recurrentError := recurrentError r;
     feedbackOutputParameter := feedbackOutputParameter r |}.

(** *** Forward *)

(** [ForwardVisitor(x, outputParameter(l))] applied to [l]. *)
Definition forward_into_own_output (x : Mat) (l : LayerTypes) (n : Net)
  : Net :=
  let (n1, o) := ForwardVisitor x l n in
  assign_outputParameter l o n1.

(** Lines 114-132: the sub-modules driven by one [Forward] call. *)
Definition Forward_modules (input : Mat) (r : Recurrent) : Net :=
  if forwardStep r =? 0 then
    fst (ForwardVisitor input initialModule (net r))
  else
    let n1 := forward_into_own_output input inputModule (net r) in
    let n2 := forward_into_own_output
                (outputParameterVisitor transferModule n1)
                feedbackModule n1 in
    fst (ForwardVisitor input recurrentModule n2).

(** Lines 148-151. *)
Definition reset_recurrentError (e : Mat) : Mat :=
  if negb (is_empty e) then zeros e else e.

(** [Forward(input, output)]; the second component is what the caller
    finds in [output]. *)
Definition Forward (input : Mat) (r : Recurrent) : Recurrent * Mat :=
  let n := Forward_modules input r in
  let output := outputParameterVisitor transferModule n in
  let saved :=
    if negb (deterministic r)
    then feedbackOutputParameter r ++ [output]
    else feedbackOutputParameter r in
  let fs := size_incr (forwardStep r) in
  if fs =? rho r then
    ({| net := n;
        network := network r;
        rho := rho r;
        forwardStep := 0;
        backwardStep := 0;
        gradientStep := gradientStep r;
        deterministic := deterministic r;
        ownsLayer := ownsLayer r;
        recurrentError := reset_recurrentError (recurrentError r);
        feedbackOutputParameter := saved |}, output)
  else
    ({| net := n;
        network := network r;
        rho := rho r;
        forwardStep := fs;
        backwardStep := backwardStep r;
        gradientStep := gradientStep r;
        deterministic := deterministic r;
        ownsLayer := ownsLayer r;
        recurrentError := recurrentError r;
        feedbackOutputParameter := saved |}, output).

(** *** Backward *)

(** Lines 161-168. *)
Definition accumulate (e gy : Mat) : Mat :=
  if negb (is_empty e) then plus e gy else gy.

(** [BackwardVisitor(outputParameter(l), err, delta(dst))] applied to [l]. *)
Definition backward_into_delta (err : Mat) (l dst : LayerTypes) (n : Net)
  : Net :=
  let (n1, d) := BackwardVisitor (outputParameterVisitor l n) err l n in
  assign_delta dst d n1.

(** Lines 170-192: the sub-modules driven by one [Backward] call, and
    what is written to [g]; [e] is the accumulated [recurrentError].
    In the first branch [g] is written by the visitor applied to
    [inputModule], the two other calls write module deltas. *)
Definition Backward_modules (e : Mat) (r : Recurrent) : Net * Mat :=
  if backwardStep r <? size_sub (rho r) 1 then
    let n1 := backward_into_delta e recurrentModule recurrentModule (net r) in
    let (n2, g) :=
      BackwardVisitor (outputParameterVisitor inputModule n1)
                      (deltaVisitor recurrentModule n1) inputModule n1 in
    let n3 := backward_into_delta (deltaVisitor recurrentModule n2)
                feedbackModule feedbackModule n2 in
    (n3, g)
  else
    let (n1, g) :=
      BackwardVisitor (outputParameterVisitor initialModule (net r))
                      e initialModule (net r) in
    (n1, g).

(** [Backward(input, gy, g)]; [input] is unused by the source.  The
    second component is what the caller finds in [g]. *)
Definition Backward (_input gy : Mat) (r : Recurrent) : Recurrent * Mat :=
  let e := accumulate (recurrentError r) gy in
  let (n, g) := Backward_modules e r in
  ({| net := n;
      network := network r;
      rho := rho r;
      forwardStep := forwardStep r;
      backwardStep := size_incr (backwardStep r);
      gradientStep := gradientStep r;
      deterministic := deterministic r;
      ownsLayer := ownsLayer r;
      recurrentError := deltaVisitor feedbackModule n;
      feedbackOutputParameter := feedbackOutputParameter r |}, g).

(** *** Gradient *)

(** Lines 214-216: the index at which the history buffer is read. *)
Definition history_index (r : Recurrent) : Z :=
  size_sub (size_sub (size (feedbackOutputParameter r)) 2) (gradientStep r).

(** Lines 206-227: the sub-modules driven by one [Gradient] call; [None]
    when the history buffer is read outside its bounds. *)
Definition Gradient_modules (input error : Mat) (r : Recurrent)
  : option Net :=
  if gradientStep r <? size_sub (rho r) 1 then
    let n1 := GradientVisitor input error recurrentModule (net r) in
    let n2 := GradientVisitor input (deltaVisitor mergeModule n1)
                inputModule n1 in
    match at_index (feedbackOutputParameter r) (history_index r) with
    | Some saved =>
        Some (GradientVisitor saved (deltaVisitor mergeModule n2)
                feedbackModule n2)
    | None => None
    end
  else
    let n1 := GradientZeroVisitor recurrentModule (net r) in
    let n2 := GradientZeroVisitor inputModule n1 in
    let n3 := GradientZeroVisitor feedbackModule n2 in
    Some (GradientVisitor input (deltaVisitor startModule n3)
            initialModule n3).

(** [Gradient(input, error, gradient)]; [gradient] is unused by the
    source. *)
Definition Gradient (input error _gradient : Mat) (r : Recurrent)
  : option Recurrent :=
  match Gradient_modules input error r with
  | None => None
  | Some n =>
      let gs := size_incr (gradientStep r) in
      if gs =? rho r then
        Some {| net := n;
                network := network r;
                rho := rho r;
                forwardStep := forwardStep r;
                backwardStep := backwardStep r;
                gradientStep := 0;
                deterministic := deterministic r;
                ownsLayer := ownsLayer r;
                recurrentError := recurrentError r;
                feedbackOutputParameter := [] |}
      else
        Some {| net := n;
                network := network r;
                rho := rho r;
                forwardStep := forwardStep r;
                backwardStep := backwardStep r;
                gradientStep := gs;
                deterministic := deterministic r;
                ownsLayer := ownsLayer r;
                recurrentError := recurrentError r;
                feedbackOutputParameter := feedbackOutputParameter r |}
  end.

(** *** Sequences of calls *)

(** One call of the runtime interface with its arguments. *)
Inductive Op : Type :=
| OpForward (input : Mat)
| OpBackward (input gy : Mat)
| OpGradient (input error gradient : Mat).

Definition step (o : Op) (r : Recurrent) : option Recurrent :=
  match o with
  | OpForward x => Some (fst (Forward x r))
  | OpBackward x gy => Some (fst (Backward x gy r))
  | OpGradient x e g => Gradient x e g r
  end.

Fixpoint run (ops : list Op) (r : Recurrent) : option Recurrent :=
  match ops with
  | [] => Some r
  | o :: ops' =>
      match step o r with
      | Some r' => run ops' r'
      | None => None
      end
  end.

(** [k] consecutive [Forward] calls on the inputs [xs]. *)
Definition forwards (xs : list Mat) (r : Recurrent) : Recurrent :=
  fold_left (fun r x => fst (Forward x r)) xs r.

(** The condition of line 143 as the next [Forward] call will find it:
    that call resets the window. *)
Definition forward_resets (r : Recurrent) : bool :=
  size_incr (forwardStep r) =? rho r.

(** The condition of line 230 as the next [Gradient] call will find it. *)
Definition gradient_wraps (r : Recurrent) : bool :=
  size_incr (gradientStep r) =? rho r.

(** *** The documented call pattern

    A window is [rho] calls of [Forward], then [rho] of [Backward], then
    [rho] of [Gradient].  A position [p] counts the calls made in the
    open window. *)

Inductive Kind : Type := KForward | KBackward | KGradient.

Definition kind_of (o : Op) : Kind :=
  match o with
  | OpForward _ => KForward
  | OpBackward _ _ => KBackward
  | OpGradient _ _ _ => KGradient
  end.

Definition Kind_eqb (a b : Kind) : bool :=
  match a, b with
  | KForward, KForward | KBackward, KBackward | KGradient, KGradient => true
  | _, _ => false
  end.

(** The call the pattern expects at position [p] of a window. *)
Definition expected (R p : Z) : Kind :=
  if p <? R then KForward
  else if p <? 2 * R then KBackward
  else KGradient.

(** The position after one more call; the window closes after [3 * R]. *)
Definition advance (R p : Z) : Z :=
  if p + 1 =? 3 * R then 0 else p + 1.

Fixpoint follows (R p : Z) (ops : list Op) : bool :=
  match ops with
  | [] => true
  | o :: ops' =>
      Kind_eqb (kind_of o) (expected R p) && follows R (advance R p) ops'
  end.

(** [ops] is a prefix of the documented pattern, from a fresh window. *)
Definition documented (R : Z) (ops : list Op) : Prop :=
  follows R 0 ops = true.

Fixpoint position (R p : Z) (ops : list Op) : Z :=
  match ops with
  | [] => p
  | _ :: ops' => position R (advance R p) ops'
  end.

(** The number of [Forward] calls among the calls of the open window,
    [c] of them being counted at position [p] already. *)
Fixpoint window_forwards (R p c : Z) (ops : list Op) : Z :=
  match ops with
  | [] => c
  | o :: ops' =>
      let c' := match kind_of o with KForward => c + 1 | _ => c end in
      if p + 1 =? 3 * R
      then window_forwards R 0 0 ops'
      else window_forwards R (p + 1) c' ops'
  end.

(** [~Recurrent()], lines 42-51; what is left of the store and of the
    network list. *)
Definition Recurrent_destroy (r : Recurrent) : Net * list LayerTypes :=
  if ownsLayer r then
    let n := DeleteVisitor recurrentModule (net r) in
    let n := DeleteVisitor initialModule n in
    let n := DeleteVisitor startModule n in
    (n, [])
  else (net r, network r).

(** [serialize] with a saving archive, lines 253-258: the object is left
    as it is; of what is written, the four leaf layers are the archive's
    business, [rho] and [ownsLayer] are returned. *)
Definition serialize_saving (r : Recurrent) : Recurrent * (Z * bool) :=
  (r, (rho r, ownsLayer r)).

(** What the caller finds in [output] after each of the [Forward] calls on
    the inputs [xs]. *)
Fixpoint forward_outputs (xs : list Mat) (r : Recurrent) : list Mat :=
  match xs with
  | [] => []
  | x :: xs' => snd (Forward x r) :: forward_outputs xs' (fst (Forward x r))
  end.

(** Line 170: the call takes the Recurrent-body branch of [Backward]. *)
Definition backward_through_body (r : Recurrent) : bool :=
  backwardStep r <? size_sub (rho r) 1.

(** Line 206: the call takes the Recurrent-body branch of [Gradient]. *)
Definition gradient_through_body (r : Recurrent) : bool :=
  gradientStep r <? size_sub (rho r) 1.

(** Where the counters and the history buffer stand at position [p] of a
    window of length [R], in training mode. *)
Definition in_window (R p : Z) (r : Recurrent) : Prop :=
  rho r = R /\ deterministic r = false /\ 0 <= p < 3 * R /\
  ((p < R /\ forwardStep r = p /\ 0 <= backwardStep r <= R /\
    gradientStep r = 0 /\ size (feedbackOutputParameter r) = p) \/
   (R <= p < 2 * R /\ forwardStep r = 0 /\ backwardStep r = p - R /\
    gradientStep r = 0 /\ size (feedbackOutputParameter r) = R) \/
   (2 * R <= p /\ forwardStep r = 0 /\ backwardStep r = R /\
    gradientStep r = p - 2 * R /\ size (feedbackOutputParameter r) = R)).

End Orchestrator.

Arguments Recurrent Mat Net : clear implicits.
Arguments Op Mat : clear implicits.

(** ** A small network to run the orchestrator on

    Column vectors of integers stand for the matrices; each of the four
    leaf layers adds its own constant to every element, [Sequential] chains
    its children and [AddMerge] (built with [run = false]) sums the output
    parameters its children already hold.  Every visitor application is
    recorded, in order, in [calls]. *)

Module Toy.

Definition Vec : Type := list Z.

Fixpoint vadd (a b : Vec) : Vec :=
  match a, b with
  | x :: a', y :: b' => (x + y) :: vadd a' b'
  | _, _ => []
  end.

Definition vzeros (a : Vec) : Vec := map (fun _ => 0) a.

Definition vempty (a : Vec) : bool :=
  match a with [] => true | _ => false end.

Inductive Call : Type :=
| CallForward (input : Vec) (l : LayerTypes)
| CallBackward (input error : Vec) (l : LayerTypes)
| CallGradient (input error : Vec) (l : LayerTypes)
| CallGradientZero (l : LayerTypes)
| CallAdd (child container : LayerTypes)
| CallWeightSize (l : LayerTypes)
| CallDelete (l : LayerTypes)
| CallNewSequential (model : option bool) (l : LayerTypes)
| CallNewAddMerge (model run : bool) (l : LayerTypes).

Record ToyNet : Type := mkToyNet {
  output_of : LayerTypes -> Vec;
  delta_of : LayerTypes -> Vec;
  gradient_of : LayerTypes -> Vec;
  children : LayerTypes -> list LayerTypes;
  calls : list Call
}.

Definition upd {A : Type} (f : LayerTypes -> A) (l : LayerTypes) (v : A)
  : LayerTypes -> A :=
  fun l' => if LayerTypes_eqb l l' then v else f l'.

Definition set_output (l : LayerTypes) (v : Vec) (n : ToyNet) : ToyNet :=
  mkToyNet (upd (output_of n) l v) (delta_of n) (gradient_of n)
           (children n) (calls n).

Definition set_delta (l : LayerTypes) (v : Vec) (n : ToyNet) : ToyNet :=
  mkToyNet (output_of n) (upd (delta_of n) l v) (gradient_of n)
           (children n) (calls n).

Definition set_gradient (l : LayerTypes) (v : Vec) (n : ToyNet) : ToyNet :=
  mkToyNet (output_of n) (delta_of n) (upd (gradient_of n) l v)
           (children n) (calls n).

Definition set_children (l : LayerTypes) (cs : list LayerTypes)
    (n : ToyNet) : ToyNet :=
  mkToyNet (output_of n) (delta_of n) (gradient_of n)
           (upd (children n) l cs) (calls n).

Definition record (c : Call) (n : ToyNet) : ToyNet :=
  mkToyNet (output_of n) (delta_of n) (gradient_of n)
           (children n) (calls n ++ [c]).

(** The constant each leaf layer adds. *)
Definition bias (l : LayerTypes) : Z :=
  match l with
  | startModule => 100
  | inputModule => 10
  | feedbackModule => 20
  | transferModule => 1
  | _ => 0
  end.

(** The sum of the output parameters of [cs]. *)
Definition merged (n : ToyNet) (cs : list LayerTypes) : Vec :=
  match cs with
  | [] => []
  | c :: cs' => fold_left (fun acc c' => vadd acc (output_of n c')) cs'
                          (output_of n c)
  end.

(** Modelled from the spec: forward of a module that is not a chain, a leaf
    adding its constant and the merge summing what its children hold. *)
Definition forward1 (x : Vec) (l : LayerTypes) (n : ToyNet) : Vec :=
  match l with
  | mergeModule => merged n (children n mergeModule)
  | _ => map (Z.add (bias l)) x
  end.

(** Modelled from the spec: forward of a sequential chain, each child
    reading its predecessor's output and filling its own output
    parameter. *)
Fixpoint forward_chain (x : Vec) (cs : list LayerTypes) (n : ToyNet)
  : ToyNet * Vec :=
  match cs with
  | [] => (n, x)
  | c :: cs' =>
      let o := forward1 x c n in
      forward_chain o cs' (set_output c o n)
  end.

Definition toy_Forward (x : Vec) (l : LayerTypes) (n : ToyNet)
  : ToyNet * Vec :=
  let n := record (CallForward x l) n in
  match l with
  | initialModule | recurrentModule => forward_chain x (children n l) n
  | _ => (n, forward1 x l n)
  end.

(** Backward of a chain: the error (every layer here has derivative one)
    becomes the delta of each child. *)
Definition backward_chain (err : Vec) (cs : list LayerTypes) (n : ToyNet)
  : ToyNet :=
  fold_right (fun c n' => set_delta c err n') n cs.

Definition toy_Backward (x err : Vec) (l : LayerTypes) (n : ToyNet)
  : ToyNet * Vec :=
  let n := record (CallBackward x err l) n in
  match l with
  | initialModule | recurrentModule =>
      (backward_chain err (children n l) n, err)
  | _ => (n, err)
  end.

(** Modelled from the spec: a composite module's gradient is defined by
    composing its children's.  A leaf's gradient is the error it is given,
    a chain gives each child the delta that child holds. *)
Definition toy_Gradient (x err : Vec) (l : LayerTypes) (n : ToyNet)
  : ToyNet :=
  let n := record (CallGradient x err l) n in
  match l with
  | initialModule | recurrentModule =>
      fold_right (fun c n' => set_gradient c (delta_of n c) n') n
                 (children n l)
  | _ => set_gradient l err n
  end.

Definition toy_GradientZero (l : LayerTypes) (n : ToyNet) : ToyNet :=
  let n := record (CallGradientZero l) n in
  set_gradient l (vzeros (gradient_of n l)) n.

Definition toy_Add (child container : LayerTypes) (n : ToyNet) : ToyNet :=
  let n := record (CallAdd child container) n in
  set_children container (children n container ++ [child]) n.

Definition toy_WeightSize (l : LayerTypes) (n : ToyNet) : ToyNet :=
  record (CallWeightSize l) n.

Definition toy_Delete (l : LayerTypes) (n : ToyNet) : ToyNet :=
  let n := record (CallDelete l) n in
  set_children l [] n.

Definition toy_new_Sequential (model : option bool) (l : LayerTypes)
    (n : ToyNet) : ToyNet :=
  let n := record (CallNewSequential model l) n in
  set_children l [] n.

Definition toy_new_AddMerge (model run : bool) (l : LayerTypes)
    (n : ToyNet) : ToyNet :=
  let n := record (CallNewAddMerge model run l) n in
  set_children l [] n.

(** Four freshly copied leaf layers and nothing else. *)
Definition leaves : ToyNet :=
  mkToyNet (fun _ => []) (fun _ => []) (fun _ => []) (fun _ => []) [].

Lemma LayerTypes_eqb_refl (l : LayerTypes) : LayerTypes_eqb l l = true.
Proof. destruct l; reflexivity. Qed.

Lemma vzeros_idempotent (m : Vec) : vzeros (vzeros m) = vzeros m.
Proof.
  unfold vzeros. induction m as [|x m IH]; simpl; [reflexivity|].
  now rewrite IH.
Qed.

Lemma vzeros_of_empty (m : Vec) : vempty m = true -> vzeros m = m.
Proof. destruct m; simpl; [reflexivity | discriminate]. Qed.

#[global] Instance VecMatrix : Matrix Vec := {|
  empty_mat := [];
  is_empty := vempty;
  zeros := vzeros;
  plus := vadd;
  empty_mat_is_empty := eq_refl;
  zeros_idempotent := vzeros_idempotent;
  zeros_of_empty := vzeros_of_empty
|}.

Lemma toy_output_assigned (l : LayerTypes) (m : Vec) (n : ToyNet) :
  output_of (set_output l m n) l = m.
Proof. simpl. unfold upd. now rewrite LayerTypes_eqb_refl. Qed.

Lemma toy_delta_assigned (l : LayerTypes) (m : Vec) (n : ToyNet) :
  delta_of (set_delta l m n) l = m.
Proof. simpl. unfold upd. now rewrite LayerTypes_eqb_refl. Qed.

#[global] Instance ToyVisitors : Visitors Vec ToyNet := {|
  ForwardVisitor := toy_Forward;
  BackwardVisitor := toy_Backward;
  GradientVisitor := toy_Gradient;
  GradientZeroVisitor := toy_GradientZero;
  outputParameterVisitor := fun l n => output_of n l;
  deltaVisitor := fun l n => delta_of n l;
  assign_outputParameter := set_output;
  assign_delta := set_delta;
  AddVisitor := toy_Add;
  weightSizeVisitor := toy_WeightSize;
  DeleteVisitor := toy_Delete;
  new_Sequential := toy_new_Sequential;
  new_AddMerge := toy_new_AddMerge;
  outputParameter_assigned := toy_output_assigned;
  delta_assigned := toy_delta_assigned
|}.

(** The orchestrator built over the toy leaves with window length [R]. *)
Definition fresh (R : Z) : Recurrent Vec ToyNet := Recurrent_of leaves R.

(** The children handed to [container] by the recorded [AddVisitor]
    calls, in order. *)
Fixpoint added_to (container : LayerTypes) (cs : list Call)
  : list LayerTypes :=
  match cs with
  | [] => []
  | CallAdd child c :: cs' =>
      if LayerTypes_eqb c container
      then child :: added_to container cs'
      else added_to container cs'
  | _ :: cs' => added_to container cs'
  end.

(** The calls recorded since the store was [before]. *)
Definition calls_since (before after : ToyNet) : list Call :=
  skipn (length (calls before)) (calls after).

End Toy.

(** *** Runs of the small network *)

(** The state of the small network after the calls [ops]. *)
Definition toy_state (R : Z) (ops : list (Op Toy.Vec))
  : Recurrent Toy.Vec Toy.ToyNet :=
  match run ops (Toy.fresh R) with
  | Some r => r
  | None => Toy.fresh R
  end.

(** One complete window of length 2. *)
Definition window2 : list (Op Toy.Vec) :=
  [OpForward [1]; OpForward [2];
   OpBackward [] [1]; OpBackward [] [5];
   OpGradient [2] [1] []; OpGradient [1] [5] []].

(** A window of length 1 up to its [Backward] call. *)
Definition c3_calls : list (Op Toy.Vec) :=
  [OpForward [1]; OpBackward [] [1]].

(** The state before the second, and last, [Backward] call of a window of
    length 2; Feedback's delta is [[1]], left by the first call. *)
Definition c5_state : Recurrent Toy.Vec Toy.ToyNet :=
  toy_state 2 [OpForward [1]; OpForward [2]; OpBackward [] [1]].


(** The state before the first [Gradient] call of a window of length 3. *)
Definition c6_state : Recurrent Toy.Vec Toy.ToyNet :=
  toy_state 3 [OpForward [1]; OpForward [2]; OpForward [3];
               OpBackward [] [1]; OpBackward [] [5]; OpBackward [] [7]].

Ltac evaluated :=
  vm_compute; repeat split; (reflexivity || (intro; discriminate)).


(** ** Facts about [size_t] arithmetic *)

Lemma size_modulus_value : size_modulus = 18446744073709551616.
Proof. reflexivity. Qed.

Lemma size_modulus_pos : 2 < size_modulus.
Proof. rewrite size_modulus_value. lia. Qed.

Lemma wrap_small (z : Z) : 0 <= z < size_modulus -> wrap z = z.
Proof. intros Hz. unfold wrap. now apply Z.mod_small. Qed.

Lemma wrap_below (z : Z) :
  - size_modulus <= z < 0 -> wrap z = z + size_modulus.
Proof.
  intros Hz. unfold wrap. symmetry.
  apply Z.mod_unique with (q := -1); lia.
Qed.

Lemma wrap_range (z : Z) : 0 <= wrap z < size_modulus.
Proof.
  unfold wrap. apply Z.mod_pos_bound. pose proof size_modulus_pos. lia.
Qed.

Lemma size_incr_small (n : Z) :
  0 <= n -> n + 1 < size_modulus -> size_incr n = n + 1.
Proof. intros H0 H1. unfold size_incr. apply wrap_small. lia. Qed.

Lemma size_sub_small (a b : Z) :
  0 <= a - b < size_modulus -> size_sub a b = a - b.
Proof. intros H. unfold size_sub. now apply wrap_small. Qed.

Lemma size_sub_below (a b : Z) :
  - size_modulus <= a - b < 0 -> size_sub a b = a - b + size_modulus.
Proof. intros H. unfold size_sub. now apply wrap_below. Qed.

Lemma size_nonneg {A : Type} (v : list A) : 0 <= size v.
Proof. unfold size. lia. Qed.

Lemma size_app {A : Type} (v w : list A) : size (v ++ w) = size v + size w.
Proof. unfold size. rewrite length_app. lia. Qed.

Lemma at_index_in_bounds {A : Type} (v : list A) (i : Z) :
  0 <= i < size v -> exists a, at_index v i = Some a.
Proof.
  intros [H0 H1]. unfold at_index, size in *.
  destruct (Z.ltb_spec i 0) as [Hneg|_]; [lia|].
  destruct (nth_error v (Z.to_nat i)) as [a|] eqn:E; [now exists a|].
  apply nth_error_None in E. lia.
Qed.

Lemma at_index_out_of_bounds {A : Type} (v : list A) (i : Z) :
  size v <= i -> at_index v i = None.
Proof.
  intros H. unfold at_index, size in *.
  destruct (Z.ltb_spec i 0) as [_|Hpos]; [reflexivity|].
  apply nth_error_None. lia.
Qed.

(** ** Facts about single calls *)

Section Calls.

Context {Mat Net : Type} {MatOps : Matrix Mat} {Vis : Visitors Mat Net}.

Implicit Types (r : Recurrent Mat Net) (x gy e g : Mat).

Lemma reset_recurrentError_zero e : is_zero (reset_recurrentError e).
Proof.
  unfold reset_recurrentError, is_zero.
  destruct (is_empty e) eqn:E; simpl.
  - now apply zeros_of_empty.
  - apply zeros_idempotent.
Qed.

Lemma Forward_net x r : net (fst (Forward x r)) = Forward_modules x r.
Proof. unfold Forward. destruct (_ =? _); reflexivity. Qed.

Lemma Forward_output x r :
  snd (Forward x r) = outputParameterVisitor transferModule (Forward_modules x r).
Proof. unfold Forward. destruct (_ =? _); reflexivity. Qed.

Lemma Forward_rho x r : rho (fst (Forward x r)) = rho r.
Proof. unfold Forward. destruct (_ =? _); reflexivity. Qed.

Lemma Forward_deterministic x r :
  deterministic (fst (Forward x r)) = deterministic r.
Proof. unfold Forward. destruct (_ =? _); reflexivity. Qed.

Lemma Forward_gradientStep x r :
  gradientStep (fst (Forward x r)) = gradientStep r.
Proof. unfold Forward. destruct (_ =? _); reflexivity. Qed.

Lemma Forward_forwardStep x r :
  forwardStep (fst (Forward x r)) =
  if forward_resets r then 0 else size_incr (forwardStep r).
Proof. unfold Forward, forward_resets. destruct (_ =? _); reflexivity. Qed.

Lemma Forward_backwardStep x r :
  backwardStep (fst (Forward x r)) =
  if forward_resets r then 0 else backwardStep r.
Proof. unfold Forward, forward_resets. destruct (_ =? _); reflexivity. Qed.

Lemma Forward_recurrentError x r :
  recurrentError (fst (Forward x r)) =
  if forward_resets r then reset_recurrentError (recurrentError r)
  else recurrentError r.
Proof. unfold Forward, forward_resets. destruct (_ =? _); reflexivity. Qed.

Lemma Forward_history x r :
  feedbackOutputParameter (fst (Forward x r)) =
  if deterministic r then feedbackOutputParameter r
  else feedbackOutputParameter r ++ [snd (Forward x r)].
Proof.
  unfold Forward. destruct (_ =? _); simpl; destruct (deterministic r);
    reflexivity.
Qed.

Lemma Backward_rho x gy r : rho (fst (Backward x gy r)) = rho r.
Proof. unfold Backward. destruct (Backward_modules _ r); reflexivity. Qed.

Lemma Backward_deterministic x gy r :
  deterministic (fst (Backward x gy r)) = deterministic r.
Proof. unfold Backward. destruct (Backward_modules _ r); reflexivity. Qed.

Lemma Backward_forwardStep x gy r :
  forwardStep (fst (Backward x gy r)) = forwardStep r.
Proof. unfold Backward. destruct (Backward_modules _ r); reflexivity. Qed.

Lemma Backward_backwardStep x gy r :
  backwardStep (fst (Backward x gy r)) = size_incr (backwardStep r).
Proof. unfold Backward. destruct (Backward_modules _ r); reflexivity. Qed.

Lemma Backward_gradientStep x gy r :
  gradientStep (fst (Backward x gy r)) = gradientStep r.
Proof. unfold Backward. destruct (Backward_modules _ r); reflexivity. Qed.

Lemma Backward_history x gy r :
  feedbackOutputParameter (fst (Backward x gy r)) = feedbackOutputParameter r.
Proof. unfold Backward. destruct (Backward_modules _ r); reflexivity. Qed.

Lemma Backward_net x gy r :
  net (fst (Backward x gy r)) =
  fst (Backward_modules (accumulate (recurrentError r) gy) r).
Proof. unfold Backward. destruct (Backward_modules _ r); reflexivity. Qed.

Lemma Backward_g x gy r :
  snd (Backward x gy r) =
  snd (Backward_modules (accumulate (recurrentError r) gy) r).
Proof. unfold Backward. destruct (Backward_modules _ r); reflexivity. Qed.

Lemma Backward_recurrentError x gy r :
  recurrentError (fst (Backward x gy r)) =
  deltaVisitor feedbackModule (net (fst (Backward x gy r))).
Proof. unfold Backward. destruct (Backward_modules _ r); reflexivity. Qed.

(** What a completed [Gradient] call leaves behind. *)
Lemma Gradient_Some x e g r r' :
  Gradient x e g r = Some r' ->
  Gradient_modules x e r = Some (net r') /\
  rho r' = rho r /\
  deterministic r' = deterministic r /\
  forwardStep r' = forwardStep r /\
  backwardStep r' = backwardStep r /\
  gradientStep r' = (if gradient_wraps r then 0
                     else size_incr (gradientStep r)) /\
  feedbackOutputParameter r' = (if gradient_wraps r then []
                                else feedbackOutputParameter r).
Proof.
  unfold Gradient, gradient_wraps.
  destruct (Gradient_modules x e r) as [n|]; [|discriminate].
  destruct (_ =? _); intros [= <-]; simpl; repeat split; reflexivity.
Qed.

(** [Gradient] completes exactly when its sub-module calls do. *)
Lemma Gradient_completes x e g r n :
  Gradient_modules x e r = Some n -> exists r', Gradient x e g r = Some r'.
Proof.
  intros E. unfold Gradient. rewrite E.
  destruct (_ =? _); eexists; reflexivity.
Qed.

(** With a positive [rho], [rho - 1] does not wrap. *)
Lemma rho_minus_1 r :
  0 < rho r < size_modulus -> size_sub (rho r) 1 = rho r - 1.
Proof. intros H. apply size_sub_small. lia. Qed.

End Calls.

(** ** The documented call pattern keeps the orchestrator in step *)

Section Pattern.

Context {Mat Net : Type} {MatOps : Matrix Mat} {Vis : Visitors Mat Net}.

Implicit Types (r : Recurrent Mat Net) (o : Op Mat) (ops : list (Op Mat)).

Lemma advance_range (R p : Z) : 0 <= p < 3 * R -> 0 <= advance R p < 3 * R.
Proof.
  intros Hp. unfold advance. destruct (Z.eqb_spec (p + 1) (3 * R)); lia.
Qed.

Lemma Kind_eqb_eq (a b : Kind) : Kind_eqb a b = true -> a = b.
Proof. destruct a, b; simpl; congruence. Qed.

Lemma in_window_fresh (leaves : Net) (R : Z) :
  0 < R -> in_window R 0 (Recurrent_of leaves R).
Proof.
  intros HR. unfold in_window, Recurrent_of.
  destruct (constructor_wiring leaves []) as [n nw].
  cbn [rho deterministic forwardStep backwardStep gradientStep
       feedbackOutputParameter].
  repeat split; try lia. left. unfold size. cbn [length]. lia.
Qed.

(** In the first third of a window the pattern calls [Forward]. *)
Lemma in_window_Forward (R p : Z) r (x : Mat) :
  0 < R < size_modulus -> p < R -> in_window R p r ->
  in_window R (advance R p) (fst (Forward x r)).
Proof.
  intros HR HpR (Hrho & Hdet & Hp & Hphase).
  destruct Hphase as [(_ & Hf & Hb & Hg & Hs)|[(H1 & _)|(H1 & _)]];
    try lia.
  unfold in_window.
  rewrite Forward_rho, Forward_deterministic, Forward_forwardStep,
    Forward_backwardStep, Forward_gradientStep, Forward_history, Hdet.
  unfold forward_resets. rewrite Hf, Hrho, size_app, Hs.
  rewrite size_incr_small by lia.
  unfold advance. change (size [snd (Forward x r)]) with 1.
  destruct (Z.eqb_spec (p + 1) (3 * R)) as [E3|E3]; [lia|].
  destruct (Z.eqb_spec (p + 1) R) as [E|E];
    repeat split; try assumption; lia.
Qed.

(** In the second third it calls [Backward]. *)
Lemma in_window_Backward (R p : Z) r (x gy : Mat) :
  0 < R < size_modulus -> R <= p < 2 * R -> in_window R p r ->
  in_window R (advance R p) (fst (Backward x gy r)).
Proof.
  intros HR HpR (Hrho & Hdet & Hp & Hphase).
  destruct Hphase as [(H1 & _)|[(_ & Hf & Hb & Hg & Hs)|(H1 & _)]];
    try lia.
  unfold in_window.
  rewrite Backward_rho, Backward_deterministic, Backward_forwardStep,
    Backward_backwardStep, Backward_gradientStep, Backward_history.
  rewrite Hb, size_incr_small by lia.
  unfold advance.
  destruct (Z.eqb_spec (p + 1) (3 * R)) as [E3|E3]; [lia|].
  repeat split; try assumption; lia.
Qed.

(** In the last third the history buffer holds [R] outputs and the index
    read by the first branch of [Gradient] is [R - 2 - gradientStep]. *)
Lemma in_window_history_index (R p : Z) r :
  0 < R < size_modulus -> 2 * R <= p -> in_window R p r ->
  gradientStep r < rho r - 1 ->
  size (feedbackOutputParameter r) = R /\
  history_index r = R - 2 - gradientStep r /\
  0 <= history_index r <= R - 2.
Proof.
  intros HR HpR (Hrho & Hdet & Hp & Hphase) Hbranch.
  destruct Hphase as [(H1 & _)|[(H1 & _)|(_ & Hf & Hb & Hg & Hs)]];
    try lia.
  assert (Hidx : history_index r = R - 2 - gradientStep r).
  { unfold history_index. rewrite Hs.
    rewrite (size_sub_small R 2) by lia.
    apply size_sub_small. lia. }
  rewrite Hidx. repeat split; lia.
Qed.

(** ... and there it calls [Gradient], which completes. *)
Lemma in_window_Gradient (R p : Z) r (x e g : Mat) :
  0 < R < size_modulus -> 2 * R <= p -> in_window R p r ->
  exists r', Gradient x e g r = Some r' /\ in_window R (advance R p) r'.
Proof.
  intros HR HpR Hin.
  assert (Hm : exists n, Gradient_modules x e r = Some n).
  { unfold Gradient_modules.
    destruct (Z.ltb_spec (gradientStep r) (size_sub (rho r) 1)) as [Hb|Hb];
      [|eexists; reflexivity].
    assert (Hrho : rho r = R) by apply Hin.
    rewrite rho_minus_1 in Hb by lia.
    destruct (in_window_history_index R p r HR HpR Hin Hb) as (Hs & Hi & Hr).
    destruct (at_index_in_bounds (feedbackOutputParameter r)
                (history_index r)) as [a Ha]; [lia|].
    rewrite Ha. eexists; reflexivity. }
  destruct Hm as [n Hn].
  destruct (Gradient_completes x e g r n Hn) as [r' Hr'].
  exists r'. split; [exact Hr'|].
  destruct (Gradient_Some x e g r r' Hr')
    as (_ & Grho & Gdet & Gf & Gb & Gg & Gh).
  destruct Hin as (Hrho & Hdet & Hp & Hphase).
  destruct Hphase as [(H1 & _)|[(H1 & _)|(_ & Hf & Hb & Hg & Hs)]];
    try lia.
  unfold in_window. rewrite Grho, Gdet, Gf, Gb, Gg, Gh.
  unfold gradient_wraps. rewrite Hg, Hrho, size_incr_small by lia.
  unfold advance.
  destruct (Z.eqb_spec (p - 2 * R + 1) R) as [E|E];
    destruct (Z.eqb_spec (p + 1) (3 * R)) as [E3|E3]; try lia;
    cbv iota; change (size (@nil Mat)) with 0;
    repeat split; try assumption; lia.
Qed.

Lemma in_window_step (R p : Z) r o :
  0 < R < size_modulus -> in_window R p r ->
  kind_of o = expected R p ->
  exists r', step o r = Some r' /\ in_window R (advance R p) r'.
Proof.
  intros HR Hin Hk. unfold expected in Hk.
  destruct (Z.ltb_spec p R) as [H1|H1].
  - destruct o as [x|x gy|x e g]; try discriminate.
    eexists; split; [reflexivity|]. now apply in_window_Forward.
  - destruct (Z.ltb_spec p (2 * R)) as [H2|H2].
    + destruct o as [x|x gy|x e g]; try discriminate.
      eexists; split; [reflexivity|]. now apply in_window_Backward.
    + destruct o as [x|x gy|x e g]; try discriminate.
      simpl. now apply in_window_Gradient.
Qed.

(** A run along the pattern completes and ends at the pattern's position. *)
Lemma in_window_run (R : Z) ops : forall (p : Z) r,
  0 < R < size_modulus -> in_window R p r -> follows R p ops = true ->
  exists r', run ops r = Some r' /\ in_window R (position R p ops) r'.
Proof.
  induction ops as [|o ops IH]; intros p r HR Hin Hf;
    cbn [follows position run] in *.
  - now exists r.
  - apply andb_true_iff in Hf. destruct Hf as [Hk Hf].
    apply Kind_eqb_eq in Hk.
    destruct (in_window_step R p r o HR Hin Hk) as (r1 & Hs & Hin1).
    rewrite Hs. now apply IH.
Qed.

Lemma follows_app (R : Z) ops : forall (p : Z) ops',
  follows R p (ops ++ ops') =
  follows R p ops && follows R (position R p ops) ops'.
Proof.
  induction ops as [|o ops IH]; intros p ops'; simpl; [reflexivity|].
  now rewrite IH, andb_assoc.
Qed.

Lemma run_app ops : forall ops' r,
  run (ops ++ ops') r =
  match run ops r with Some r' => run ops' r' | None => None end.
Proof.
  induction ops as [|o ops IH]; intros ops' r; simpl; [reflexivity|].
  destruct (step o r); [apply IH | reflexivity].
Qed.

(** Along the pattern, [Z.min p R] calls of the open window were
    [Forward] calls. *)
Lemma window_forwards_position (R : Z) ops : forall (p : Z),
  0 < R -> 0 <= p < 3 * R -> follows R p ops = true ->
  window_forwards R p (Z.min p R) ops = Z.min (position R p ops) R.
Proof.
  induction ops as [|o ops IH]; intros p HR Hp Hf;
    cbn [follows position window_forwards] in *; [reflexivity|].
  apply andb_true_iff in Hf. destruct Hf as [Hk Hf].
  apply Kind_eqb_eq in Hk. unfold advance in *.
  destruct (Z.eqb_spec (p + 1) (3 * R)) as [E|E].
  - cbv iota. replace (window_forwards R 0 0 ops)
      with (window_forwards R 0 (Z.min 0 R) ops) by (f_equal; lia).
    apply IH; [lia|lia|exact Hf].
  - rewrite <- IH by (try lia; exact Hf). f_equal.
    rewrite Hk. unfold expected.
    destruct (Z.ltb_spec p R); [lia|].
    destruct (Z.ltb_spec p (2 * R)); lia.
Qed.

End Pattern.

(** ** Runs of [Forward] *)

Section ForwardRuns.

Context {Mat Net : Type} {MatOps : Matrix Mat} {Vis : Visitors Mat Net}.

Implicit Types (r : Recurrent Mat Net) (xs : list Mat).

Lemma forwards_cons (x : Mat) xs r :
  forwards (x :: xs) r = forwards xs (fst (Forward x r)).
Proof. reflexivity. Qed.

Lemma size_cons {A : Type} (a : A) (v : list A) : size (a :: v) = 1 + size v.
Proof. unfold size. cbn [length]. lia. Qed.

(** Short of [rho] calls, [Forward] only counts. *)
Lemma forwards_counts xs : forall r,
  0 <= forwardStep r -> forwardStep r + size xs < rho r ->
  rho r < size_modulus ->
  forwardStep (forwards xs r) = forwardStep r + size xs /\
  rho (forwards xs r) = rho r.
Proof.
  induction xs as [|x xs IH]; intros r H0 Hlt Hrho.
  - unfold size. cbn. split; [lia|reflexivity].
  - rewrite size_cons in *. pose proof (size_nonneg xs) as Hxs.
    rewrite forwards_cons.
    assert (Hno : forward_resets r = false).
    { unfold forward_resets. rewrite size_incr_small by lia.
      apply Z.eqb_neq. lia. }
    assert (Hf : forwardStep (fst (Forward x r)) = forwardStep r + 1).
    { rewrite Forward_forwardStep, Hno. apply size_incr_small; lia. }
    destruct (IH (fst (Forward x r))) as [IH1 IH2];
      rewrite ?Forward_rho, ?Hf; try lia.
    split; [lia | now rewrite IH2, Forward_rho].
Qed.

(** The call that brings the count to [rho] resets the window. *)
Lemma forwards_to_rho xs : forall r,
  0 <= forwardStep r -> 1 <= size xs ->
  forwardStep r + size xs = rho r -> rho r < size_modulus ->
  forwardStep (forwards xs r) = 0 /\
  backwardStep (forwards xs r) = 0 /\
  is_zero (recurrentError (forwards xs r)).
Proof.
  induction xs as [|x xs IH]; intros r H0 H1 Hsum Hrho.
  - unfold size in H1. cbn in H1. lia.
  - rewrite size_cons in *. rewrite forwards_cons.
    destruct xs as [|x' xs'].
    + unfold size in Hsum. cbn [length] in Hsum.
      assert (Hyes : forward_resets r = true).
      { unfold forward_resets. rewrite size_incr_small by lia.
        apply Z.eqb_eq. lia. }
      cbn [forwards fold_left].
      rewrite Forward_forwardStep, Forward_backwardStep,
        Forward_recurrentError, Hyes.
      repeat split. apply reset_recurrentError_zero.
    + pose proof (size_nonneg xs') as Hxs. rewrite size_cons in *.
      assert (Hno : forward_resets r = false).
      { unfold forward_resets. rewrite size_incr_small by lia.
        apply Z.eqb_neq. lia. }
      assert (Hf : forwardStep (fst (Forward x r)) = forwardStep r + 1).
      { rewrite Forward_forwardStep, Hno. apply size_incr_small; lia. }
      apply IH; rewrite ?Forward_rho, ?Hf, ?size_cons; lia.
Qed.

Lemma size_firstn {A : Type} (v : list A) (k : Z) :
  0 <= k <= size v -> size (firstn (Z.to_nat k) v) = k.
Proof. intros Hk. unfold size in *. rewrite length_firstn. lia. Qed.

End ForwardRuns.

(** ** The specification's statements about single calls *)

Section SingleCalls.

Context {Mat Net : Type} {MatOps : Matrix Mat} {Vis : Visitors Mat Net}.

Implicit Types (r : Recurrent Mat Net) (x gy e g : Mat).

(** C1. A [Forward] call at [forwardStep == 0] evaluates the Initial module
    on the input, and the constructor gave that module Input, Start and
    Transfer, in this order.  At any other step it runs Input on the input
    (into Input's own output parameter), then Feedback on the output
    parameter Transfer holds from the step before (into Feedback's own
    output parameter), then the Recurrent-body module.  In both cases the
    caller's output is Transfer's output parameter as the call leaves it. *)
Theorem C1_Forward_dispatch x r :
  (forwardStep r = 0 ->
     net (fst (Forward x r)) = fst (ForwardVisitor x initialModule (net r))) /\
  (forwardStep r <> 0 ->
     exists n1 o1 n2 o2,
       ForwardVisitor x inputModule (net r) = (n1, o1) /\
       ForwardVisitor
         (outputParameterVisitor transferModule
            (assign_outputParameter inputModule o1 n1))
         feedbackModule (assign_outputParameter inputModule o1 n1)
       = (n2, o2) /\
       net (fst (Forward x r)) =
       fst (ForwardVisitor x recurrentModule
              (assign_outputParameter feedbackModule o2 n2))) /\
  snd (Forward x r) =
    outputParameterVisitor transferModule (net (fst (Forward x r))) /\
  Toy.added_to initialModule (Toy.calls (net (Toy.fresh (rho r)))) =
    [inputModule; startModule; transferModule].
Proof.
  rewrite Forward_net, Forward_output. unfold Forward_modules.
  repeat split.
  - intros H0. now rewrite H0.
  - intros Hn. apply Z.eqb_neq in Hn. rewrite Hn.
    unfold forward_into_own_output.
    destruct (ForwardVisitor x inputModule (net r)) as [n1 o1].
    destruct (ForwardVisitor _ feedbackModule _) as [n2 o2] eqn:E2.
    now exists n1, o1, n2, o2.
Qed.

(** C2. With [rho = R > 0], [R] calls of [Forward] from [forwardStep == 0]
    leave [forwardStep] and [backwardStep] at 0 and [recurrentError] zero;
    among these calls the one that resets is the [R]-th and no other. *)
Theorem C2_window_reset (xs : list Mat) r :
  0 < rho r < size_modulus ->
  forwardStep r = 0 ->
  size xs = rho r ->
  forwardStep (forwards xs r) = 0 /\
  backwardStep (forwards xs r) = 0 /\
  is_zero (recurrentError (forwards xs r)) /\
  (forall k, 0 <= k < rho r ->
     (forward_resets (forwards (firstn (Z.to_nat k) xs) r) = true <->
      k + 1 = rho r)).
Proof.
  intros Hrho Hf Hsize.
  destruct (forwards_to_rho xs r) as (F & B & E); try lia.
  repeat split; try assumption.
  - intros Hreset.
    destruct (forwards_counts (firstn (Z.to_nat k) xs) r) as [Hc Hr];
      rewrite ?size_firstn; try lia.
    unfold forward_resets in Hreset. rewrite Hc, Hr, Hf in Hreset.
    rewrite size_firstn in Hreset by lia.
    rewrite size_incr_small in Hreset by lia.
    now apply Z.eqb_eq in Hreset.
  - intros Hk.
    destruct (forwards_counts (firstn (Z.to_nat k) xs) r) as [Hc Hr];
      rewrite ?size_firstn; try lia.
    unfold forward_resets. rewrite Hc, Hr, Hf.
    rewrite size_firstn by lia.
    rewrite size_incr_small by lia.
    apply Z.eqb_eq. lia.
Qed.

(** C4. A [Backward] call with [backwardStep < rho - 1] propagates the
    accumulated error back through the Recurrent-body module (into that
    module's delta), then that delta through Input, which yields [g], and
    the Recurrent-body delta through Feedback, which yields Feedback's
    delta.  Otherwise the accumulated error goes back through the Initial
    module and [g] is the delta that call yields. *)
Theorem C4_Backward_dispatch x gy r :
  0 < rho r < size_modulus ->
  let e := accumulate (recurrentError r) gy in
  let body := BackwardVisitor (outputParameterVisitor recurrentModule (net r))
                e recurrentModule (net r) in
  let n1 := assign_delta recurrentModule (snd body) (fst body) in
  let inp := BackwardVisitor (outputParameterVisitor inputModule n1)
               (snd body) inputModule n1 in
  let fb := BackwardVisitor (outputParameterVisitor feedbackModule (fst inp))
              (deltaVisitor recurrentModule (fst inp))
              feedbackModule (fst inp) in
  let ini := BackwardVisitor (outputParameterVisitor initialModule (net r))
               e initialModule (net r) in
  (backwardStep r < rho r - 1 ->
     net (fst (Backward x gy r)) = assign_delta feedbackModule (snd fb) (fst fb)
     /\ snd (Backward x gy r) = snd inp
     /\ deltaVisitor feedbackModule (net (fst (Backward x gy r))) = snd fb) /\
  (~ backwardStep r < rho r - 1 ->
     net (fst (Backward x gy r)) = fst ini /\
     snd (Backward x gy r) = snd ini).
Proof.
  intros Hrho. cbv zeta. rewrite Backward_net, Backward_g.
  unfold Backward_modules. rewrite rho_minus_1 by assumption.
  split; intros Hb.
  - apply Z.ltb_lt in Hb. rewrite Hb. unfold backward_into_delta.
    destruct (BackwardVisitor _ _ recurrentModule (net r)) as [n1 d1].
    cbn [fst snd]. rewrite delta_assigned.
    destruct (BackwardVisitor _ d1 inputModule _) as [n2 dg].
    cbn [fst snd].
    destruct (BackwardVisitor _ _ feedbackModule n2) as [n3 d3].
    cbn [fst snd]. rewrite delta_assigned. repeat split; reflexivity.
  - apply Z.ltb_nlt in Hb. rewrite Hb.
    destruct (BackwardVisitor _ _ initialModule (net r)) as [n1 dg].
    split; reflexivity.
Qed.

(** C5, as the code has it. On entry [recurrentError] becomes [gy] when it
    is empty and has [gy] added to it otherwise, and this is the error the
    call propagates.  On exit [recurrentError] is Feedback's delta: with
    [backwardStep < rho - 1] the delta Feedback's backward pass has just
    produced; otherwise the delta Feedback holds once the Initial module
    has been run, this call applying no visitor to Feedback.  The next
    [Backward] call accumulates its [gy] into that value. *)
Theorem C5_recurrentError_carry x gy r :
  0 < rho r < size_modulus ->
  let e := accumulate (recurrentError r) gy in
  let r' := fst (Backward x gy r) in
  let body := BackwardVisitor (outputParameterVisitor recurrentModule (net r))
                e recurrentModule (net r) in
  let n1 := assign_delta recurrentModule (snd body) (fst body) in
  let inp := BackwardVisitor (outputParameterVisitor inputModule n1)
               (snd body) inputModule n1 in
  let fb := BackwardVisitor (outputParameterVisitor feedbackModule (fst inp))
              (deltaVisitor recurrentModule (fst inp))
              feedbackModule (fst inp) in
  let ini := BackwardVisitor (outputParameterVisitor initialModule (net r))
               e initialModule (net r) in
  e = (if is_empty (recurrentError r) then gy
       else plus (recurrentError r) gy) /\
  recurrentError r' = deltaVisitor feedbackModule (net r') /\
  (backwardStep r < rho r - 1 ->
     net r' = assign_delta feedbackModule (snd fb) (fst fb) /\
     recurrentError r' = snd fb) /\
  (~ backwardStep r < rho r - 1 ->
     net r' = fst ini /\
     recurrentError r' = deltaVisitor feedbackModule (fst ini)) /\
  (forall x2 gy2,
     net (fst (Backward x2 gy2 r')) =
     fst (Backward_modules (accumulate (recurrentError r') gy2) r')).
Proof.
  intros Hrho. cbv zeta.
  split; [unfold accumulate; now destruct (is_empty (recurrentError r))|].
  split; [apply Backward_recurrentError|].
  split; [|split; [|intros x2 gy2; apply Backward_net]].
  - intros Hb. rewrite Backward_recurrentError, Backward_net.
    unfold Backward_modules. rewrite rho_minus_1 by assumption.
    apply Z.ltb_lt in Hb. rewrite Hb. unfold backward_into_delta.
    destruct (BackwardVisitor _ _ recurrentModule (net r)) as [n1 d1].
    cbn [fst snd]. rewrite delta_assigned.
    destruct (BackwardVisitor _ d1 inputModule _) as [n2 dg].
    cbn [fst snd].
    destruct (BackwardVisitor _ _ feedbackModule n2) as [n3 d3].
    cbn [fst snd]. rewrite delta_assigned. split; reflexivity.
  - intros Hb. rewrite Backward_recurrentError, Backward_net.
    unfold Backward_modules. rewrite rho_minus_1 by assumption.
    apply Z.ltb_nlt in Hb. rewrite Hb.
    destruct (BackwardVisitor _ _ initialModule (net r)) as [n1 dg].
    split; reflexivity.
Qed.

(** C6. A [Gradient] call with [gradientStep < rho - 1] reads the history
    buffer at index [size - 2 - gradientStep].  When the buffer holds at
    least [2 + gradientStep] outputs the call completes and Feedback's
    gradient is computed from the output saved there, which is followed in
    the buffer by [1 + gradientStep] later outputs and so is not the last
    one saved, and from Merge's delta.  With a shorter buffer the index
    wraps around and the read is outside the buffer. *)
Theorem C6_feedback_gradient_history x e g r :
  0 < rho r < size_modulus ->
  0 <= gradientStep r < rho r - 1 ->
  size (feedbackOutputParameter r) < size_modulus ->
  let n1 := GradientVisitor x e recurrentModule (net r) in
  let n2 := GradientVisitor x (deltaVisitor mergeModule n1) inputModule n1 in
  let len := size (feedbackOutputParameter r) in
  (2 + gradientStep r <= len ->
     history_index r = len - 2 - gradientStep r /\
     exists saved earlier later r',
       feedbackOutputParameter r = earlier ++ saved :: later /\
       size earlier = len - 2 - gradientStep r /\
       size later = 1 + gradientStep r /\
       Gradient x e g r = Some r' /\
       net r' = GradientVisitor saved (deltaVisitor mergeModule n2)
                                feedbackModule n2) /\
  (len < 2 + gradientStep r -> Gradient x e g r = None).
Proof.
  intros Hrho Hg Hlen. cbv zeta.
  pose proof (size_nonneg (feedbackOutputParameter r)) as H0.
  assert (Hbranch : (gradientStep r <? size_sub (rho r) 1) = true).
  { rewrite rho_minus_1 by assumption. apply Z.ltb_lt. lia. }
  split; intros Hs.
  - assert (Hi : history_index r =
                 size (feedbackOutputParameter r) - 2 - gradientStep r).
    { unfold history_index.
      rewrite (size_sub_small (size (feedbackOutputParameter r)) 2) by lia.
      apply size_sub_small. lia. }
    split; [exact Hi|].
    destruct (at_index_in_bounds (feedbackOutputParameter r)
                (history_index r)) as [saved Hsaved]; [lia|].
    assert (Hnth : nth_error (feedbackOutputParameter r)
                     (Z.to_nat (history_index r)) = Some saved).
    { unfold at_index in Hsaved.
      destruct (Z.ltb_spec (history_index r) 0); [lia|exact Hsaved]. }
    destruct (nth_error_split _ _ Hnth) as (earlier & later & Hsplit & Hl).
    assert (Hm : Gradient_modules x e r =
                 Some (GradientVisitor saved
                         (deltaVisitor mergeModule
                            (GradientVisitor x
                               (deltaVisitor mergeModule
                                  (GradientVisitor x e recurrentModule (net r)))
                               inputModule
                               (GradientVisitor x e recurrentModule (net r))))
                         feedbackModule
                         (GradientVisitor x
                            (deltaVisitor mergeModule
                               (GradientVisitor x e recurrentModule (net r)))
                            inputModule
                            (GradientVisitor x e recurrentModule (net r))))).
    { unfold Gradient_modules. now rewrite Hbranch, Hsaved. }
    destruct (Gradient_completes x e g r _ Hm) as [r' Hr'].
    exists saved, earlier, later, r'.
    assert (Hse : size earlier =
                  size (feedbackOutputParameter r) - 2 - gradientStep r).
    { unfold size at 1. rewrite Hl. lia. }
    repeat split; try assumption.
    + assert (Hsz : size (feedbackOutputParameter r) =
                    size earlier + (1 + size later)).
      { rewrite Hsplit at 1. rewrite size_app, size_cons. reflexivity. }
      lia.
    + destruct (Gradient_Some x e g r r' Hr') as (Hn & _).
      rewrite Hm in Hn. now injection Hn.
  - unfold Gradient, Gradient_modules. rewrite Hbranch.
    rewrite at_index_out_of_bounds; [reflexivity|].
    unfold history_index.
    destruct (Z_lt_le_dec (size (feedbackOutputParameter r)) 2) as [H2|H2].
    + rewrite (size_sub_below (size (feedbackOutputParameter r)) 2)
        by (pose proof size_modulus_pos; lia).
      rewrite size_sub_small; lia.
    + rewrite (size_sub_small (size (feedbackOutputParameter r)) 2) by lia.
      rewrite size_sub_below; lia.
Qed.


End SingleCalls.

(** ** The specification's statements about the call pattern *)

Section CallPattern.

Context {Mat Net : Type} {MatOps : Matrix Mat} {Vis : Visitors Mat Net}.

Implicit Types (r : Recurrent Mat Net) (o : Op Mat) (ops : list (Op Mat)).

Lemma nonempty_of_size {A : Type} (v : list A) : 0 < size v -> v <> [].
Proof. intros H ->. unfold size in H. cbn in H. lia. Qed.

Lemma expected_Gradient (R p : Z) : expected R p = KGradient -> 2 * R <= p.
Proof.
  unfold expected. destruct (Z.ltb_spec p R); [discriminate|].
  destruct (Z.ltb_spec p (2 * R)); [discriminate|]. intros _. lia.
Qed.

Lemma expected_Backward (R p : Z) :
  expected R p = KBackward -> R <= p < 2 * R.
Proof.
  unfold expected. destruct (Z.ltb_spec p R); [discriminate|].
  destruct (Z.ltb_spec p (2 * R)); [|discriminate]. intros _. lia.
Qed.

Lemma position_range (R : Z) ops : forall p,
  0 <= p < 3 * R -> 0 <= position R p ops < 3 * R.
Proof.
  induction ops as [|o ops IH]; intros p Hp; cbn [position]; [exact Hp|].
  apply IH. now apply advance_range.
Qed.

(** In inference mode nothing is ever saved. *)
Lemma inference_step o r r' :
  deterministic r = true -> feedbackOutputParameter r = [] ->
  step o r = Some r' ->
  deterministic r' = true /\ feedbackOutputParameter r' = [].
Proof.
  intros Hd Hh Hs. destruct o as [x|x gy|x e g]; cbn [step] in Hs.
  - injection Hs as <-.
    now rewrite Forward_deterministic, Forward_history, Hd.
  - injection Hs as <-.
    now rewrite Backward_deterministic, Backward_history.
  - destruct (Gradient_Some x e g r r' Hs) as (_ & _ & Gd & _ & _ & _ & Gh).
    rewrite Gd, Gh. split; [exact Hd|]. now destruct (gradient_wraps r).
Qed.

Lemma inference_run ops : forall r r',
  deterministic r = true -> feedbackOutputParameter r = [] ->
  run ops r = Some r' -> feedbackOutputParameter r' = [].
Proof.
  induction ops as [|o ops IH]; intros r r' Hd Hh Hrun; cbn [run] in Hrun.
  - now injection Hrun as <-.
  - destruct (step o r) as [r1|] eqn:Hs; [|discriminate].
    destruct (inference_step o r r1 Hd Hh Hs) as [Hd1 Hh1].
    now apply (IH r1 r').
Qed.

(** [Forward] and [Backward] always complete. *)
Lemma run_without_Gradient ops : forall r,
  (forall o, In o ops -> kind_of o <> KGradient) ->
  exists r', run ops r = Some r'.
Proof.
  induction ops as [|o ops IH]; intros r Hk; cbn [run].
  - now exists r.
  - assert (Ho : kind_of o <> KGradient) by (apply Hk; now left).
    destruct o as [x|x gy|x e g]; cbn [step];
      try (apply IH; intros o' Hin; apply Hk; now right).
    now contradiction Ho.
Qed.

(** C3, as the code has it. Along the documented pattern, from a freshly
    constructed orchestrator with [rho > 0], every call completes,
    [forwardStep] and [gradientStep] stay below [rho] and [backwardStep]
    never exceeds [rho]; [backwardStep] is below [rho] whenever the pattern
    next calls [Backward] and equals [rho] whenever it next calls
    [Gradient]. *)
Theorem C3_counters_bounded (leaves : Net) (R : Z) ops :
  0 < R < size_modulus ->
  documented R ops ->
  exists r,
    run ops (Recurrent_of leaves R) = Some r /\
    rho r = R /\
    0 <= forwardStep r < rho r /\
    0 <= gradientStep r < rho r /\
    0 <= backwardStep r <= rho r /\
    (expected R (position R 0 ops) = KBackward -> backwardStep r < rho r) /\
    (expected R (position R 0 ops) = KGradient -> backwardStep r = rho r).
Proof.
  intros HR Hdoc.
  destruct (in_window_run R ops 0 (Recurrent_of leaves R) HR)
    as (r & Hrun & Hrho & Hdet & Hp & Hphase);
    [apply in_window_fresh; lia | exact Hdoc |].
  exists r. rewrite Hrho. split; [exact Hrun|]. split; [reflexivity|].
  destruct Hphase as [(H1 & Hf & Hb & Hg & Hs)
                     |[(H1 & Hf & Hb & Hg & Hs)|(H1 & Hf & Hb & Hg & Hs)]];
    repeat split; try lia; intros Hk;
    (apply expected_Backward in Hk || apply expected_Gradient in Hk); lia.
Qed.

(** C8. In training mode, along the documented pattern, the history buffer
    holds as many outputs as [Forward] was called in the open window, which
    is [forwardStep] until the [rho]-th of these calls; a call empties the
    buffer exactly when it is a [Gradient] call that wraps [gradientStep],
    that is the [rho]-th one of the window.  In inference mode the buffer
    is empty after any calls that complete, and calls of [Forward] and
    [Backward] always complete. *)
Theorem C8_history_length (leaves : Net) (R : Z) ops :
  0 < R < size_modulus ->
  let fresh := Recurrent_of leaves R in
  (documented R ops ->
     exists r,
       run ops fresh = Some r /\
       size (feedbackOutputParameter r) = window_forwards R 0 0 ops /\
       (window_forwards R 0 0 ops < R ->
        forwardStep r = window_forwards R 0 0 ops)) /\
  (forall o, documented R (ops ++ [o]) ->
     exists r r',
       run ops fresh = Some r /\
       step o r = Some r' /\
       (gradient_wraps r = true <-> gradientStep r = R - 1) /\
       (feedbackOutputParameter r' = [] <->
        kind_of o = KGradient /\ gradient_wraps r = true)) /\
  (forall r, run ops (set_deterministic true fresh) = Some r ->
     feedbackOutputParameter r = []) /\
  ((forall o, In o ops -> kind_of o <> KGradient) ->
     exists r, run ops (set_deterministic true fresh) = Some r).
Proof.
  intros HR. cbv zeta.
  assert (Hfresh : in_window R 0 (Recurrent_of leaves R))
    by (apply in_window_fresh; lia).
  split; [|split; [|split]].
  - intros Hdoc.
    destruct (in_window_run R ops 0 _ HR Hfresh Hdoc)
      as (r & Hrun & Hrho & Hdet & Hp & Hphase).
    exists r. split; [exact Hrun|].
    pose proof (window_forwards_position R ops 0) as Hw.
    rewrite Z.min_l in Hw by lia. rewrite Hw by (try lia; exact Hdoc).
    destruct Hphase as [(H1 & Hf & Hb & Hg & Hs)
                       |[(H1 & Hf & Hb & Hg & Hs)|(H1 & Hf & Hb & Hg & Hs)]];
      split; lia.
  - intros o Hdoc. unfold documented in Hdoc.
    rewrite follows_app in Hdoc. apply andb_true_iff in Hdoc.
    destruct Hdoc as [Hops Ho]. cbn [follows] in Ho.
    rewrite andb_true_r in Ho. apply Kind_eqb_eq in Ho.
    destruct (in_window_run R ops 0 _ HR Hfresh Hops) as (r & Hrun & Hin).
    destruct (in_window_step R _ r o HR Hin Ho) as (r' & Hstep & _).
    exists r, r'. split; [exact Hrun|]. split; [exact Hstep|].
    destruct Hin as (Hrho & Hdet & Hp & Hphase).
    assert (Hg : 0 <= gradientStep r < R) by lia.
    assert (Hwrap : gradient_wraps r = true <-> gradientStep r = R - 1).
    { unfold gradient_wraps. rewrite size_incr_small, Hrho by lia.
      rewrite Z.eqb_eq. lia. }
    split; [exact Hwrap|]. symmetry in Ho.
    destruct o as [x|x gy|x e g]; cbn [step kind_of] in *.
    + injection Hstep as <-. rewrite Forward_history, Hdet.
      split; [intros He; now apply app_eq_nil in He|].
      intros [Hk _]. discriminate.
    + injection Hstep as <-. rewrite Backward_history.
      apply expected_Backward in Ho.
      split; [|intros [Hk _]; discriminate].
      intros He. exfalso.
      apply (nonempty_of_size (feedbackOutputParameter r)); [lia|exact He].
    + destruct (Gradient_Some x e g r r' Hstep)
        as (_ & _ & _ & _ & _ & _ & Gh).
      rewrite Gh. apply expected_Gradient in Ho.
      destruct (gradient_wraps r); split; try tauto.
      * intros He. exfalso.
        apply (nonempty_of_size (feedbackOutputParameter r)); [lia|exact He].
      * intros [_ Hk]. discriminate.
  - intros r Hrun. apply (inference_run ops _ r) in Hrun; [exact Hrun| |];
      unfold set_deterministic, Recurrent_of;
      destruct (constructor_wiring leaves []); reflexivity.
  - apply run_without_Gradient.
Qed.

(** C10. With [rho = R >= 2], in training mode and along the documented
    pattern, every [Gradient] call completes, and one that takes the
    [gradientStep < rho - 1] branch finds [R] outputs in the history buffer
    and reads it at index [R - 2 - gradientStep], which lies in
    [[0, R - 2]] and holds an element. *)
Theorem C10_history_index_in_bounds (leaves : Net) (R : Z) ops
    (x e g : Mat) :
  2 <= R < size_modulus ->
  documented R (ops ++ [OpGradient x e g]) ->
  exists r,
    run ops (Recurrent_of leaves R) = Some r /\
    (gradientStep r < rho r - 1 ->
       size (feedbackOutputParameter r) = R /\
       history_index r = R - 2 - gradientStep r /\
       0 <= history_index r <= R - 2 /\
       exists saved,
         at_index (feedbackOutputParameter r) (history_index r) = Some saved) /\
    exists r', Gradient x e g r = Some r'.
Proof.
  intros HR Hdoc. unfold documented in Hdoc.
  rewrite follows_app in Hdoc. apply andb_true_iff in Hdoc.
  destruct Hdoc as [Hops Ho]. cbn [follows] in Ho.
  rewrite andb_true_r in Ho. apply Kind_eqb_eq in Ho.
  cbn [kind_of] in Ho. symmetry in Ho. apply expected_Gradient in Ho.
  assert (HR' : 0 < R < size_modulus) by lia.
  destruct (in_window_run R ops 0 (Recurrent_of leaves R) HR')
    as (r & Hrun & Hin); [apply in_window_fresh; lia | exact Hops |].
  exists r. split; [exact Hrun|]. split.
  - intros Hb.
    destruct (in_window_history_index R _ r HR' Ho Hin Hb) as (Hs & Hi & Hr).
    repeat split; try assumption; try lia.
    apply at_index_in_bounds. lia.
  - destruct (in_window_Gradient R _ r x e g HR' Ho Hin) as (r' & Hr' & _).
    now exists r'.
Qed.

(** C9. The wiring [serialize] performs when loading is the constructor's
    wiring, step for step: the two are the same function of the store and
    of the network list, so a loaded instance has the modules, the network
    list and [rho] of the instance the constructor builds from the same
    four leaf layers, and loading into a default-constructed instance gives
    that very instance when the archive says it owns its layers.  On the
    recording network both perform the same fourteen steps, in the order
    listed, and push the same four handles on the network list. *)
Theorem C9_reload_wiring :
  (forall (n : Net) (nw : list LayerTypes),
     serialize_wiring n nw = constructor_wiring n nw) /\
  (forall (restore : Net -> Net) (R : Z) (owns : bool) r,
     let leaves :=
       restore (DeleteVisitor startModule
                  (DeleteVisitor initialModule
                     (DeleteVisitor recurrentModule (net r)))) in
     net (serialize_loading restore R owns r) = net (Recurrent_of leaves R) /\
     network (serialize_loading restore R owns r)
       = network (Recurrent_of leaves R) /\
     rho (serialize_loading restore R owns r) = rho (Recurrent_of leaves R)) /\
  (forall (restore : Net -> Net) (R : Z) (n : Net),
     serialize_loading restore R true (Recurrent_default n) =
     Recurrent_of
       (restore (DeleteVisitor startModule
                   (DeleteVisitor initialModule
                      (DeleteVisitor recurrentModule n)))) R) /\
  Toy.calls (fst (serialize_wiring Toy.leaves [])) =
    Toy.calls (fst (constructor_wiring Toy.leaves [])) /\
  Toy.calls (fst (constructor_wiring Toy.leaves [])) =
    [Toy.CallNewSequential None initialModule;
     Toy.CallNewAddMerge false false mergeModule;
     Toy.CallNewSequential (Some false) recurrentModule;
     Toy.CallAdd inputModule initialModule;
     Toy.CallAdd startModule initialModule;
     Toy.CallAdd transferModule initialModule;
     Toy.CallWeightSize startModule;
     Toy.CallWeightSize inputModule;
     Toy.CallWeightSize feedbackModule;
     Toy.CallWeightSize transferModule;
     Toy.CallAdd inputModule mergeModule;
     Toy.CallAdd feedbackModule mergeModule;
     Toy.CallAdd mergeModule recurrentModule;
     Toy.CallAdd transferModule recurrentModule] /\
  snd (serialize_wiring Toy.leaves []) =
    [initialModule; mergeModule; feedbackModule; recurrentModule].
Proof.
  split; [reflexivity|]. split; [|split; [|repeat split]].
  - intros restore R owns r. cbv zeta.
    unfold serialize_loading, Recurrent_of.
    change (serialize_wiring ?n ?nw) with (constructor_wiring n nw).
    destruct (constructor_wiring _ []) as [n nw]. repeat split.
  - intros restore R n. unfold serialize_loading, Recurrent_of.
    change (serialize_wiring ?a ?b) with (constructor_wiring a b).
    cbn [net Recurrent_default].
    destruct (constructor_wiring _ []) as [n' nw]. reflexivity.
Qed.

End CallPattern.

(** ** The statements at work on the small network *)

(** The three outputs of a window of length 3: Start is applied at step 0,
    Input and Feedback are merged at steps 1 and 2. *)
Example toy_forward_outputs :
  let r0 := Toy.fresh 3 in
  let r1 := fst (Forward [1] r0) in
  let r2 := fst (Forward [2] r1) in
  snd (Forward [1] r0) = [1 + 10 + 100 + 1] /\
  snd (Forward [2] r1) = [(2 + 10) + (112 + 20) + 1] /\
  snd (Forward [3] r2) = [(3 + 10) + (145 + 20) + 1] /\
  Toy.calls_since (net r0) (net (fst (Forward [3] r2))) =
    [Toy.CallForward [1] initialModule;
     Toy.CallForward [2] inputModule;
     Toy.CallForward [112] feedbackModule;
     Toy.CallForward [2] recurrentModule;
     Toy.CallForward [3] inputModule;
     Toy.CallForward [145] feedbackModule;
     Toy.CallForward [3] recurrentModule].
Proof. evaluated. Qed.

Lemma C2_window_reset_witness :
  (0 < rho (Toy.fresh 3) < size_modulus /\
   forwardStep (Toy.fresh 3) = 0 /\
   size [[1]; [2]; [3]] = rho (Toy.fresh 3)) /\
  forwardStep (forwards [[1]; [2]; [3]] (Toy.fresh 3)) = 0 /\
  backwardStep (forwards [[1]; [2]; [3]] (Toy.fresh 3)) = 0 /\
  is_zero (recurrentError (forwards [[1]; [2]; [3]] (Toy.fresh 3))) /\
  (forall k, 0 <= k < rho (Toy.fresh 3) ->
     (forward_resets
        (forwards (firstn (Z.to_nat k) [[1]; [2]; [3]]) (Toy.fresh 3)) = true
      <-> k + 1 = rho (Toy.fresh 3))).
Proof.
  split; [evaluated|].
  apply (C2_window_reset [[1]; [2]; [3]] (Toy.fresh 3)); evaluated.
Defined.

(** C3 fails as stated: after the [rho]-th [Backward] call of a window
    [backwardStep] equals [rho]. *)
Lemma C3_counterexample :
  documented 1 c3_calls /\
  exists r,
    run c3_calls (Toy.fresh 1) = Some r /\
    backwardStep r = 1 /\ rho r = 1 /\
    ~ (forwardStep r < rho r /\ backwardStep r < rho r /\
       gradientStep r < rho r).
Proof.
  split; [reflexivity|]. eexists. split; [reflexivity|].
  split; [reflexivity|]. split; [reflexivity|].
  intros (_ & Hb & _). vm_compute in Hb. discriminate.
Qed.

Lemma C3_counters_bounded_witness :
  (0 < 2 < size_modulus /\
   documented 2 (window2 ++ [OpForward [3]])) /\
  exists r,
    run (window2 ++ [OpForward [3]]) (Toy.fresh 2) = Some r /\
    rho r = 2 /\
    0 <= forwardStep r < rho r /\
    0 <= gradientStep r < rho r /\
    0 <= backwardStep r <= rho r /\
    (expected 2 (position 2 0 (window2 ++ [OpForward [3]])) = KBackward ->
     backwardStep r < rho r) /\
    (expected 2 (position 2 0 (window2 ++ [OpForward [3]])) = KGradient ->
     backwardStep r = rho r).
Proof.
  split; [evaluated|].
  apply (C3_counters_bounded Toy.leaves 2 (window2 ++ [OpForward [3]]));
    evaluated.
Defined.

(** The first [Backward] call of a window of length 2. *)
Lemma C4_Backward_dispatch_witness :
  let r := toy_state 2 [OpForward [1]; OpForward [2]] in
  (0 < rho r < size_modulus /\ backwardStep r < rho r - 1) /\
  snd (Backward [] [5] r) = [5] /\
  deltaVisitor feedbackModule (net (fst (Backward [] [5] r))) = [5].
Proof.
  cbv zeta. split; [evaluated|].
  destruct (C4_Backward_dispatch [] [5]
              (toy_state 2 [OpForward [1]; OpForward [2]])) as [Hlt _];
    [evaluated|].
  destruct Hlt as (_ & Hg & Hd); [evaluated|].
  rewrite Hg, Hd. split; reflexivity.
Defined.

(** C5 fails as stated: at the earliest step no backward pass is run on
    Feedback, and [recurrentError] receives the delta Feedback held when
    the call began. *)
Lemma C5_counterexample :
  let r' := fst (Backward [] [5] c5_state) in
  ~ (backwardStep c5_state < rho c5_state - 1) /\
  Toy.calls_since (net c5_state) (net r') =
    [Toy.CallBackward [] [6] initialModule] /\
  (forall i e,
     ~ In (Toy.CallBackward i e feedbackModule)
          (Toy.calls_since (net c5_state) (net r'))) /\
  recurrentError r' = deltaVisitor feedbackModule (net c5_state) /\
  recurrentError r' = [1].
Proof.
  cbv zeta. split; [evaluated|]. split; [reflexivity|].
  split; [|split; reflexivity].
  intros i e Hin. vm_compute in Hin.
  destruct Hin as [Hin|[]]. discriminate Hin.
Qed.

Lemma C5_recurrentError_carry_witness :
  let r := toy_state 2 [OpForward [1]; OpForward [2]] in
  (0 < rho r < size_modulus /\ backwardStep r < rho r - 1) /\
  recurrentError (fst (Backward [] [5] r)) = [5].
Proof.
  cbv zeta. split; [evaluated|].
  destruct (C5_recurrentError_carry [] [5]
              (toy_state 2 [OpForward [1]; OpForward [2]]))
    as (_ & _ & Hlt & _); [evaluated|].
  destruct Hlt as (_ & He); [evaluated|].
  rewrite He. reflexivity.
Defined.

Lemma C6_feedback_gradient_history_witness :
  (0 < rho c6_state < size_modulus /\
   0 <= gradientStep c6_state < rho c6_state - 1 /\
   size (feedbackOutputParameter c6_state) < size_modulus /\
   2 + gradientStep c6_state <= size (feedbackOutputParameter c6_state)) /\
  history_index c6_state = 1 /\
  exists saved earlier later r',
    feedbackOutputParameter c6_state = earlier ++ saved :: later /\
    size earlier = 1 /\ size later = 1 /\
    Gradient [3] [7] [] c6_state = Some r'.
Proof.
  split; [evaluated|].
  destruct (C6_feedback_gradient_history [3] [7] [] c6_state)
    as [Hin _]; [evaluated ..|].
  destruct Hin as (Hi & saved & earlier & later & r' & H1 & H2 & H3 & H4 & _);
    [evaluated|].
  split; [exact Hi|]. exists saved, earlier, later, r'.
  split; [exact H1|]. split; [exact (eq_trans H2 eq_refl)|].
  split; [exact (eq_trans H3 eq_refl) | exact H4].
Defined.



Lemma C8_history_length_witness :
  0 < 2 < size_modulus /\
  (documented 2 (window2 ++ [OpForward [3]]) ->
   exists r,
     run (window2 ++ [OpForward [3]]) (Toy.fresh 2) = Some r /\
     size (feedbackOutputParameter r) =
       window_forwards 2 0 0 (window2 ++ [OpForward [3]]) /\
     (window_forwards 2 0 0 (window2 ++ [OpForward [3]]) < 2 ->
      forwardStep r = window_forwards 2 0 0 (window2 ++ [OpForward [3]]))).
Proof.
  split; [evaluated|].
  apply (C8_history_length Toy.leaves 2 (window2 ++ [OpForward [3]])).
  evaluated.
Defined.

Lemma C10_history_index_in_bounds_witness :
  let calls := [OpForward [1]; OpForward [2];
                OpBackward [] [1]; OpBackward [] [5]] in
  (2 <= 2 < size_modulus /\
   documented 2 (calls ++ [OpGradient [2] [1] []])) /\
  exists r,
    run calls (Toy.fresh 2) = Some r /\
    (gradientStep r < rho r - 1 ->
       size (feedbackOutputParameter r) = 2 /\
       history_index r = 2 - 2 - gradientStep r /\
       0 <= history_index r <= 2 - 2 /\
       exists saved,
         at_index (feedbackOutputParameter r) (history_index r) = Some saved) /\
    exists r', Gradient [2] [1] [] r = Some r'.
Proof.
  cbv zeta. split; [evaluated|].
  apply (C10_history_index_in_bounds Toy.leaves 2
           [OpForward [1]; OpForward [2];
            OpBackward [] [1]; OpBackward [] [5]] [2] [1] []); evaluated.
Defined.

(** ** Further properties of the orchestrator *)

Section Further.

Context {Mat Net : Type} {MatOps : Matrix Mat} {Vis : Visitors Mat Net}.

Implicit Types (r : Recurrent Mat Net) (o : Op Mat) (ops : list (Op Mat))
  (xs : list Mat).

Lemma step_configuration o r r' :
  step o r = Some r' ->
  rho r' = rho r /\ deterministic r' = deterministic r /\
  ownsLayer r' = ownsLayer r /\ network r' = network r.
Proof.
  destruct o as [x|x gy|x e g]; cbn [step].
  - intros [= <-]. unfold Forward. destruct (_ =? _); repeat split.
  - intros [= <-]. unfold Backward.
    destruct (Backward_modules _ r); repeat split.
  - unfold Gradient. destruct (Gradient_modules x e r); [|discriminate].
    destruct (_ =? _); intros [= <-]; repeat split.
Qed.

(** X1. No sequence of [Forward], [Backward] and [Gradient] calls changes
    [rho], the inference flag, the ownership flag or the network list. *)
Theorem run_keeps_configuration ops : forall r r',
  run ops r = Some r' ->
  rho r' = rho r /\ deterministic r' = deterministic r /\
  ownsLayer r' = ownsLayer r /\ network r' = network r.
Proof.
  induction ops as [|o ops IH]; intros r r' Hrun; cbn [run] in Hrun.
  - injection Hrun as <-. repeat split.
  - destruct (step o r) as [r1|] eqn:Hs; [|discriminate].
    destruct (step_configuration o r r1 Hs) as (H1 & H2 & H3 & H4).
    destruct (IH r1 r' Hrun) as (I1 & I2 & I3 & I4).
    repeat split; congruence.
Qed.

Lemma Recurrent_of_configuration (leaves : Net) (R : Z) :
  rho (Recurrent_of leaves R) = R /\
  deterministic (Recurrent_of leaves R) = false /\
  ownsLayer (Recurrent_of leaves R) = true /\
  network (Recurrent_of leaves R) =
    [initialModule; mergeModule; feedbackModule; recurrentModule] /\
  forwardStep (Recurrent_of leaves R) = 0 /\
  backwardStep (Recurrent_of leaves R) = 0 /\
  gradientStep (Recurrent_of leaves R) = 0 /\
  feedbackOutputParameter (Recurrent_of leaves R) = [].
Proof. repeat split. Qed.

(** X2. However a value-constructed orchestrator has been used, its
    destructor applies the delete visitor to the Recurrent-body module,
    then the Initial module, then Start, and to nothing else, and empties
    the network list; a default-constructed orchestrator, used or not, is
    destroyed without touching the store. *)
Theorem destroy_after_use (leaves : Net) (R : Z) ops r :
  (run ops (Recurrent_of leaves R) = Some r ->
   Recurrent_destroy r =
     (DeleteVisitor startModule
        (DeleteVisitor initialModule
           (DeleteVisitor recurrentModule (net r))), [])) /\
  (run ops (Recurrent_default leaves) = Some r ->
   Recurrent_destroy r = (net r, [])).
Proof.
  split; intros Hrun;
    destruct (run_keeps_configuration ops _ r Hrun) as (_ & _ & Ho & Hn);
    unfold Recurrent_destroy; rewrite Ho.
  - destruct (Recurrent_of_configuration leaves R) as (_ & _ & -> & _).
    reflexivity.
  - cbn [ownsLayer Recurrent_default]. rewrite Hn. reflexivity.
Qed.

(** X3. Saving an orchestrator built by the constructor, at any point of
    its use, and loading what was saved into a default-constructed one
    gives an orchestrator with the same [rho], ownership flag and network
    list; the counters and the history buffer are not part of what is
    saved: the loaded orchestrator starts a fresh window. *)
Theorem save_load_round_trip (leaves n0 : Net) (R : Z) ops r
    (restore : Net -> Net) :
  run ops (Recurrent_of leaves R) = Some r ->
  let saved := snd (serialize_saving r) in
  let r' := serialize_loading restore (fst saved) (snd saved)
              (Recurrent_default n0) in
  fst (serialize_saving r) = r /\
  rho r' = rho r /\ ownsLayer r' = ownsLayer r /\ network r' = network r /\
  forwardStep r' = 0 /\ backwardStep r' = 0 /\ gradientStep r' = 0 /\
  feedbackOutputParameter r' = [].
Proof.
  intros Hrun. cbv zeta.
  destruct (run_keeps_configuration ops _ r Hrun) as (Hr & _ & Ho & Hn).
  destruct (Recurrent_of_configuration leaves R) as (_ & _ & _ & Hn0 & _).
  rewrite Hn, Hn0. unfold serialize_saving, serialize_loading. cbn [fst snd].
  destruct (serialize_wiring _ []) as [n nw] eqn:E.
  unfold serialize_wiring in E. injection E as _ <-.
  repeat split.
Qed.

(** X4. Counting from a step below [rho], [forwardStep] after any number of
    [Forward] calls is the number of steps taken, modulo [rho]. *)
Theorem forwards_step_periodic xs : forall r,
  0 < rho r < size_modulus ->
  0 <= forwardStep r < rho r ->
  forwardStep (forwards xs r) = (forwardStep r + size xs) mod rho r /\
  rho (forwards xs r) = rho r.
Proof.
  induction xs as [|x xs IH]; intros r Hrho Hf.
  - cbn [forwards fold_left]. change (size (@nil Mat)) with 0.
    rewrite Z.add_0_r, Z.mod_small by lia. split; reflexivity.
  - rewrite forwards_cons, size_cons.
    assert (Hstep : forwardStep (fst (Forward x r)) =
                    (forwardStep r + 1) mod rho r).
    { rewrite Forward_forwardStep. unfold forward_resets.
      rewrite size_incr_small by lia.
      destruct (Z.eqb_spec (forwardStep r + 1) (rho r)) as [E|E].
      - rewrite E, Z.mod_same by lia. reflexivity.
      - rewrite Z.mod_small by lia. reflexivity. }
    destruct (IH (fst (Forward x r))) as [IH1 IH2].
    + now rewrite Forward_rho.
    + rewrite Forward_rho, Hstep. apply Z.mod_pos_bound. lia.
    + rewrite IH1, IH2, Forward_rho, Hstep. split; [|reflexivity].
      rewrite Z.add_mod_idemp_l by lia. f_equal. lia.
Qed.

Lemma forwards_deterministic xs : forall r,
  deterministic (forwards xs r) = deterministic r.
Proof.
  induction xs as [|x xs IH]; intros r; [reflexivity|].
  now rewrite forwards_cons, IH, Forward_deterministic.
Qed.

(** X5. In training mode the history buffer after any number of [Forward]
    calls is what it was, followed by the outputs those calls gave their
    caller, in order: [Forward] never drops a saved output.  In inference
    mode the calls leave the buffer as it is. *)
Theorem forwards_history xs : forall r,
  feedbackOutputParameter (forwards xs r) =
  if deterministic r then feedbackOutputParameter r
  else feedbackOutputParameter r ++ forward_outputs xs r.
Proof.
  induction xs as [|x xs IH]; intros r.
  - cbn [forwards fold_left forward_outputs]. rewrite app_nil_r.
    now destruct (deterministic r).
  - rewrite forwards_cons, IH, Forward_deterministic, Forward_history.
    cbn [forward_outputs]. destruct (deterministic r); [reflexivity|].
    now rewrite <- app_assoc.
Qed.

Lemma size_sub_0_1 : size_sub 0 1 = size_modulus - 1.
Proof.
  rewrite size_sub_below by (pose proof size_modulus_pos; lia). lia.
Qed.

Lemma rho_zero_forwards xs : forall r,
  rho r = 0 ->
  0 <= forwardStep r ->
  forwardStep r + size xs < size_modulus ->
  forwardStep (forwards xs r) = forwardStep r + size xs /\
  backwardStep (forwards xs r) = backwardStep r /\
  recurrentError (forwards xs r) = recurrentError r.
Proof.
  induction xs as [|x xs IH]; intros r Hrho Hf Hlt.
  - cbn [forwards fold_left]. change (size (@nil Mat)) with 0.
    repeat split; lia.
  - rewrite size_cons in Hlt. pose proof (size_nonneg xs) as Hxs.
    rewrite forwards_cons, size_cons.
    assert (Hno : forward_resets r = false).
    { unfold forward_resets. rewrite size_incr_small, Hrho by lia.
      apply Z.eqb_neq. lia. }
    destruct (IH (fst (Forward x r))) as (I1 & I2 & I3);
      rewrite ?Forward_rho, ?Forward_forwardStep, ?Hno,
        ?size_incr_small by lia; try lia.
    rewrite I1, I2, I3, Forward_forwardStep, Forward_backwardStep,
      Forward_recurrentError, Hno, size_incr_small by lia.
    repeat split; lia.
Qed.

(** X6. With [rho == 0] the window never closes: fewer than [2^64] calls of
    [Forward] only count, leaving [backwardStep] and [recurrentError]
    alone, and, [rho - 1] wrapping to [2^64 - 1], a [Backward] call whose
    counter is below that goes through the Recurrent-body module, Input
    and Feedback, and a [Gradient] call whose counter is below that
    computes Feedback's gradient from the history buffer, or reads outside
    of it. *)
Theorem rho_zero_never_resets xs (x gy e g : Mat) r :
  rho r = 0 ->
  0 <= forwardStep r ->
  forwardStep r + size xs < size_modulus ->
  (forwardStep (forwards xs r) = forwardStep r + size xs /\
   backwardStep (forwards xs r) = backwardStep r /\
   recurrentError (forwards xs r) = recurrentError r) /\
  (backwardStep r < size_modulus - 1 ->
     let acc := accumulate (recurrentError r) gy in
     let n1 := backward_into_delta acc recurrentModule recurrentModule
                 (net r) in
     let inp := BackwardVisitor (outputParameterVisitor inputModule n1)
                  (deltaVisitor recurrentModule n1) inputModule n1 in
     net (fst (Backward x gy r)) =
       backward_into_delta (deltaVisitor recurrentModule (fst inp))
         feedbackModule feedbackModule (fst inp) /\
     snd (Backward x gy r) = snd inp) /\
  (gradientStep r < size_modulus - 1 ->
     let n1 := GradientVisitor x e recurrentModule (net r) in
     let n2 := GradientVisitor x (deltaVisitor mergeModule n1)
                 inputModule n1 in
     (at_index (feedbackOutputParameter r) (history_index r) = None ->
      Gradient x e g r = None) /\
     (forall saved,
        at_index (feedbackOutputParameter r) (history_index r) = Some saved ->
        exists r',
          Gradient x e g r = Some r' /\
          net r' = GradientVisitor saved (deltaVisitor mergeModule n2)
                     feedbackModule n2)).
Proof.
  intros Hrho Hf Hlt.
  split; [now apply rho_zero_forwards|]. split.
  - intros Hb. cbv zeta. rewrite Backward_net, Backward_g.
    unfold Backward_modules. rewrite Hrho, size_sub_0_1.
    apply Z.ltb_lt in Hb. rewrite Hb.
    destruct (BackwardVisitor _ _ inputModule _) as [n2 dg].
    split; reflexivity.
  - intros Hg. cbv zeta.
    assert (Hbranch : (gradientStep r <? size_sub (rho r) 1) = true)
      by (rewrite Hrho, size_sub_0_1; now apply Z.ltb_lt).
    split.
    + intros Hnone. unfold Gradient, Gradient_modules.
      now rewrite Hbranch, Hnone.
    + intros saved Hsaved.
      assert (Hm : Gradient_modules x e r =
                   Some (GradientVisitor saved
                     (deltaVisitor mergeModule
                        (GradientVisitor x
                           (deltaVisitor mergeModule
                              (GradientVisitor x e recurrentModule (net r)))
                           inputModule
                           (GradientVisitor x e recurrentModule (net r))))
                     feedbackModule
                     (GradientVisitor x
                        (deltaVisitor mergeModule
                           (GradientVisitor x e recurrentModule (net r)))
                        inputModule
                        (GradientVisitor x e recurrentModule (net r))))).
      { unfold Gradient_modules. now rewrite Hbranch, Hsaved. }
      destruct (Gradient_completes x e g r _ Hm) as [r' Hr'].
      exists r'. split; [exact Hr'|].
      destruct (Gradient_Some x e g r r' Hr') as (Hn & _).
      rewrite Hm in Hn. now injection Hn.
Qed.

(** X7. With [rho == 1] every step is the earliest one: a [Forward] call at
    step 0 runs the Initial module and leaves both [forwardStep] and
    [backwardStep] at 0, no [Backward] or [Gradient] call takes the
    Recurrent-body branch, and [Gradient] completes without reading the
    history buffer, whatever the buffer holds. *)
Theorem rho_one_always_initial (x e g : Mat) r :
  rho r = 1 ->
  0 <= backwardStep r ->
  0 <= gradientStep r ->
  (forwardStep r = 0 ->
   net (fst (Forward x r)) = fst (ForwardVisitor x initialModule (net r)) /\
   forwardStep (fst (Forward x r)) = 0 /\
   backwardStep (fst (Forward x r)) = 0) /\
  backward_through_body r = false /\
  gradient_through_body r = false /\
  exists r', Gradient x e g r = Some r' /\
    (gradientStep r = 0 -> feedbackOutputParameter r' = []).
Proof.
  intros Hrho Hb Hg.
  assert (Hs : size_sub (rho r) 1 = 0).
  { rewrite Hrho, size_sub_small; pose proof size_modulus_pos; lia. }
  assert (HB : backward_through_body r = false).
  { unfold backward_through_body. rewrite Hs. apply Z.ltb_ge. lia. }
  assert (HG : gradient_through_body r = false).
  { unfold gradient_through_body. rewrite Hs. apply Z.ltb_ge. lia. }
  split; [|split; [exact HB|split; [exact HG|]]].
  - intros Hf.
    rewrite Forward_net, Forward_forwardStep, Forward_backwardStep.
    unfold Forward_modules, forward_resets. rewrite Hf, Hrho.
    rewrite size_incr_small by (pose proof size_modulus_pos; lia).
    repeat split.
  - destruct (Gradient_modules x e r) as [n|] eqn:Hm.
    + destruct (Gradient_completes x e g r n Hm) as [r' Hr'].
      exists r'. split; [exact Hr'|]. intros H0.
      destruct (Gradient_Some x e g r r' Hr')
        as (_ & _ & _ & _ & _ & _ & Gh).
      rewrite Gh. unfold gradient_wraps. rewrite H0, Hrho.
      rewrite size_incr_small by (pose proof size_modulus_pos; lia).
      reflexivity.
    + unfold Gradient_modules in Hm.
      unfold gradient_through_body in HG. rewrite HG in Hm. discriminate.
Qed.

Lemma run_without_Gradient_gradientStep ops : forall r r',
  (forall o, In o ops -> kind_of o <> KGradient) ->
  run ops r = Some r' -> gradientStep r' = gradientStep r.
Proof.
  induction ops as [|o ops IH]; intros r r' Hk Hrun; cbn [run] in Hrun.
  - now injection Hrun as <-.
  - assert (Ho : kind_of o <> KGradient) by (apply Hk; now left).
    assert (Hk' : forall o', In o' ops -> kind_of o' <> KGradient)
      by (intros o' Hin; apply Hk; now right).
    destruct o as [x|x gy|x e g]; cbn [step] in Hrun.
    + rewrite (IH _ r' Hk' Hrun). apply Forward_gradientStep.
    + rewrite (IH _ r' Hk' Hrun). apply Backward_gradientStep.
    + now contradiction Ho.
Qed.

(** X8. In inference mode, with [rho >= 2], a [Gradient] call that follows
    any number of [Forward] and [Backward] calls on a constructed
    orchestrator reads the history buffer outside its bounds: the buffer is
    empty and the index wraps around to [2^64 - 2]. *)
Theorem inference_gradient_out_of_bounds (leaves : Net) (R : Z) ops
    (x e g : Mat) :
  2 <= R < size_modulus ->
  (forall o, In o ops -> kind_of o <> KGradient) ->
  exists r,
    run ops (set_deterministic true (Recurrent_of leaves R)) = Some r /\
    feedbackOutputParameter r = [] /\
    history_index r = size_modulus - 2 /\
    Gradient x e g r = None.
Proof.
  intros HR Hk.
  destruct (run_without_Gradient ops
              (set_deterministic true (Recurrent_of leaves R)) Hk)
    as [r Hrun].
  exists r. split; [exact Hrun|].
  assert (Hh : feedbackOutputParameter r = []).
  { apply (inference_run ops _ r) in Hrun; [exact Hrun| |];
      unfold set_deterministic, Recurrent_of;
      destruct (constructor_wiring leaves []); reflexivity. }
  assert (Hg : gradientStep r = 0).
  { rewrite (run_without_Gradient_gradientStep ops _ r Hk Hrun).
    unfold set_deterministic, Recurrent_of.
    destruct (constructor_wiring leaves []); reflexivity. }
  assert (Hrho : rho r = R).
  { destruct (run_keeps_configuration ops _ r Hrun) as (-> & _).
    unfold set_deterministic, Recurrent_of.
    destruct (constructor_wiring leaves []); reflexivity. }
  assert (Hi : history_index r = size_modulus - 2).
  { unfold history_index. rewrite Hh, Hg. change (size (@nil Mat)) with 0.
    assert (H2 : size_sub 0 2 = size_modulus - 2)
      by (rewrite size_sub_below; lia).
    rewrite H2, size_sub_small by lia. lia. }
  split; [exact Hh|]. split; [exact Hi|].
  unfold Gradient, Gradient_modules.
  rewrite Hg, Hrho, size_sub_small by lia.
  destruct (Z.ltb_spec 0 (R - 1)); [|lia].
  rewrite at_index_out_of_bounds; [reflexivity|].
  rewrite Hi, Hh. change (size (@nil Mat)) with 0. lia.
Qed.

(** X9. When running Input leaves Transfer's output parameter alone, the
    [Forward] call of a step other than 0 hands Feedback the very output
    the previous [Forward] call gave its caller. *)
Theorem feedback_reads_previous_output (x0 x1 : Mat) r0 :
  (forall x n,
     outputParameterVisitor transferModule
       (forward_into_own_output x inputModule n) =
     outputParameterVisitor transferModule n) ->
  forwardStep (fst (Forward x0 r0)) <> 0 ->
  let r1 := fst (Forward x0 r0) in
  let n1 := forward_into_own_output x1 inputModule (net r1) in
  let n2 := forward_into_own_output (snd (Forward x0 r0)) feedbackModule n1 in
  net (fst (Forward x1 r1)) = fst (ForwardVisitor x1 recurrentModule n2).
Proof.
  intros Hframe Hstep. cbv zeta.
  rewrite (Forward_net x1). unfold Forward_modules at 1.
  apply Z.eqb_neq in Hstep. rewrite Hstep, Hframe.
  now rewrite Forward_output, <- Forward_net.
Qed.

Lemma run_forwards xs : forall r,
  run (map OpForward xs) r = Some (forwards xs r).
Proof.
  induction xs as [|x xs IH]; intros r; [reflexivity|].
  cbn [map run step]. now rewrite IH.
Qed.

Lemma follows_forwards (R : Z) xs : forall p,
  0 <= p -> p + size xs <= R ->
  follows R p (map (@OpForward Mat) xs) = true.
Proof.
  induction xs as [|x xs IH]; intros p H0 Hle; [reflexivity|].
  rewrite size_cons in Hle. pose proof (size_nonneg xs) as Hxs.
  cbn [map follows kind_of]. unfold expected, advance.
  destruct (Z.ltb_spec p R); [|lia].
  destruct (Z.eqb_spec (p + 1) (3 * R)); [lia|].
  cbn [Kind_eqb andb]. apply IH; lia.
Qed.

Lemma position_small (R : Z) ops : forall p,
  0 <= p -> p + size ops < 3 * R -> position R p ops = p + size ops.
Proof.
  induction ops as [|o ops IH]; intros p H0 Hlt.
  - change (size (@nil (Op Mat))) with 0. cbn [position]. lia.
  - rewrite size_cons in *. pose proof (size_nonneg ops) as Hs.
    cbn [position]. unfold advance.
    destruct (Z.eqb_spec (p + 1) (3 * R)); [lia|].
    rewrite IH; lia.
Qed.

(** After the [Forward] calls of a window, and short of its last [Gradient]
    call, the pattern leaves the history buffer alone. *)
Lemma in_window_tail (R : Z) ops : forall p r,
  0 < R < size_modulus -> in_window R p r -> R <= p ->
  p + size ops < 3 * R -> follows R p ops = true ->
  exists r',
    run ops r = Some r' /\
    feedbackOutputParameter r' = feedbackOutputParameter r /\
    in_window R (p + size ops) r'.
Proof.
  induction ops as [|o ops IH]; intros p r HR Hin HpR Hlt Hf.
  - exists r. change (size (@nil (Op Mat))) with 0. rewrite Z.add_0_r.
    split; [reflexivity|]. split; [reflexivity|exact Hin].
  - rewrite size_cons in *. pose proof (size_nonneg ops) as Hs.
    cbn [follows] in Hf. apply andb_true_iff in Hf. destruct Hf as [Hk Hf].
    apply Kind_eqb_eq in Hk.
    destruct (in_window_step R p r o HR Hin Hk) as (r1 & Hs1 & Hin1).
    assert (Hadv : advance R p = p + 1).
    { unfold advance. destruct (Z.eqb_spec (p + 1) (3 * R)); lia. }
    rewrite Hadv in Hin1, Hf.
    assert (Hh : feedbackOutputParameter r1 = feedbackOutputParameter r).
    { unfold expected in Hk. destruct (Z.ltb_spec p R); [lia|].
      destruct o as [x|x gy|x e g]; cbn [step] in Hs1.
      - destruct (p <? 2 * R); discriminate.
      - injection Hs1 as <-. apply Backward_history.
      - destruct (Z.ltb_spec p (2 * R)); [discriminate|].
        destruct (Gradient_Some x e g r r1 Hs1)
          as (_ & _ & _ & _ & _ & _ & Gh).
        rewrite Gh. unfold gradient_wraps.
        destruct Hin as (Hrho & _ & _ & Hphase).
        destruct Hphase as [(H1 & _)|[(H1 & _)|(_ & _ & _ & Hg & _)]];
          try lia.
        rewrite Hg, Hrho, size_incr_small by lia.
        destruct (Z.eqb_spec (p - 2 * R + 1) R); [lia|reflexivity]. }
    destruct (IH (p + 1) r1 HR Hin1) as (r' & Hrun & Hh' & Hin'); try lia;
      [exact Hf|].
    exists r'. cbn [run]. rewrite Hs1.
    replace (p + (1 + size ops)) with (p + 1 + size ops) by lia.
    split; [exact Hrun|]. split; [congruence|exact Hin'].
Qed.

(** X10. A window of the documented pattern, begun by the [rho] calls of
    [Forward] on [xs] and continued by [rest], short of the window's last
    [Gradient] call: the history buffer holds exactly the outputs the
    [Forward] calls of this window gave their caller, and once [rho] calls
    of [Backward] are made, [gradientStep] counts the [Gradient] calls made
    and a further one that takes the Recurrent-body branch reads the output
    of the [Forward] call of index [rho - 2 - gradientStep]. *)
Theorem window_history_is_forward_outputs (R : Z) xs (rest : list (Op Mat)) r0 :
  0 < R < size_modulus ->
  rho r0 = R -> deterministic r0 = false ->
  forwardStep r0 = 0 -> gradientStep r0 = 0 ->
  0 <= backwardStep r0 <= R ->
  feedbackOutputParameter r0 = [] ->
  size xs = R -> size rest < 2 * R ->
  documented R (map OpForward xs ++ rest) ->
  exists r,
    run (map OpForward xs ++ rest) r0 = Some r /\
    feedbackOutputParameter r = forward_outputs xs r0 /\
    (R <= size rest ->
       gradientStep r = size rest - R /\
       (gradient_through_body r = true ->
          history_index r = R - 2 - gradientStep r /\
          exists saved,
            at_index (forward_outputs xs r0) (R - 2 - gradientStep r)
              = Some saved)).
Proof.
  intros HR Hrho Hdet Hf Hg Hb Hh Hxs Hrest Hdoc.
  assert (Hin0 : in_window R 0 r0).
  { unfold in_window. rewrite Hh. change (size (@nil Mat)) with 0.
    repeat split; try assumption; try lia. }
  assert (Hmap : size (map (@OpForward Mat) xs) = R).
  { unfold size in *. now rewrite length_map. }
  assert (Hfw : follows R 0 (map (@OpForward Mat) xs) = true)
    by (apply follows_forwards; lia).
  unfold documented in Hdoc. rewrite follows_app in Hdoc.
  apply andb_true_iff in Hdoc. destruct Hdoc as [_ Hfr].
  rewrite position_small in Hfr by lia. rewrite Hmap, Z.add_0_l in Hfr.
  destruct (in_window_run R _ 0 r0 HR Hin0 Hfw) as (r1 & Hrun1 & Hin1).
  rewrite position_small, Hmap, Z.add_0_l in Hin1 by lia.
  rewrite run_forwards in Hrun1. injection Hrun1 as <-.
  destruct (in_window_tail R rest R (forwards xs r0) HR Hin1)
    as (r & Hrun & Hhist & Hin); try lia; [exact Hfr|].
  exists r. rewrite run_app, run_forwards. split; [exact Hrun|].
  assert (Hhr : feedbackOutputParameter r = forward_outputs xs r0).
  { rewrite Hhist, forwards_history, Hdet, Hh. reflexivity. }
  split; [exact Hhr|]. intros Hge.
  pose proof Hin as (Hrho' & _ & _ & Hphase).
  assert (Hgs : gradientStep r = size rest - R).
  { destruct Hphase as [(H1 & _)|[(H1 & H2)|(_ & _ & _ & Hg' & _)]]; lia. }
  split; [exact Hgs|]. intros Hbody.
  unfold gradient_through_body in Hbody. apply Z.ltb_lt in Hbody.
  rewrite rho_minus_1 in Hbody by lia.
  destruct (in_window_history_index R (R + size rest) r HR) as (Hs & Hi & Hr);
    try assumption; try lia.
  split; [exact Hi|]. apply at_index_in_bounds.
  rewrite <- Hhr, Hs. lia.
Qed.

(** X11. Along the documented pattern the Initial module serves exactly the
    first [Forward] call, the last [Backward] call and the last [Gradient]
    call of each window; every other call of the window goes through the
    Recurrent-body module and Input and Feedback. *)
Theorem initial_serves_window_ends (leaves : Net) (R : Z) ops o :
  0 < R < size_modulus ->
  documented R (ops ++ [o]) ->
  exists r r',
    run ops (Recurrent_of leaves R) = Some r /\
    step o r = Some r' /\
    let p := position R 0 ops in
    match o with
    | OpForward x =>
        (p = 0 ->
         net r' = fst (ForwardVisitor x initialModule (net r))) /\
        (p <> 0 ->
         let n1 := forward_into_own_output x inputModule (net r) in
         let n2 := forward_into_own_output
                     (outputParameterVisitor transferModule n1)
                     feedbackModule n1 in
         net r' = fst (ForwardVisitor x recurrentModule n2))
    | OpBackward _ gy =>
        let acc := accumulate (recurrentError r) gy in
        (p = 2 * R - 1 ->
         net r' = fst (BackwardVisitor
                         (outputParameterVisitor initialModule (net r))
                         acc initialModule (net r))) /\
        (p <> 2 * R - 1 ->
         let n1 := backward_into_delta acc recurrentModule recurrentModule
                     (net r) in
         let n2 := fst (BackwardVisitor
                          (outputParameterVisitor inputModule n1)
                          (deltaVisitor recurrentModule n1)
                          inputModule n1) in
         net r' = backward_into_delta (deltaVisitor recurrentModule n2)
                    feedbackModule feedbackModule n2)
    | OpGradient x e _ =>
        (p = 3 * R - 1 ->
         let n1 := GradientZeroVisitor recurrentModule (net r) in
         let n2 := GradientZeroVisitor inputModule n1 in
         let n3 := GradientZeroVisitor feedbackModule n2 in
         net r' = GradientVisitor x (deltaVisitor startModule n3)
                    initialModule n3) /\
        (p <> 3 * R - 1 ->
         let n1 := GradientVisitor x e recurrentModule (net r) in
         let n2 := GradientVisitor x (deltaVisitor mergeModule n1)
                     inputModule n1 in
         exists saved,
           at_index (feedbackOutputParameter r) (history_index r)
             = Some saved /\
           net r' = GradientVisitor saved (deltaVisitor mergeModule n2)
                      feedbackModule n2)
    end.
Proof.
  intros HR Hdoc. unfold documented in Hdoc.
  rewrite follows_app in Hdoc. apply andb_true_iff in Hdoc.
  destruct Hdoc as [Hops Ho]. cbn [follows] in Ho.
  rewrite andb_true_r in Ho. apply Kind_eqb_eq in Ho.
  destruct (in_window_run R ops 0 (Recurrent_of leaves R) HR)
    as (r & Hrun & Hin); [apply in_window_fresh; lia | exact Hops |].
  destruct (in_window_step R _ r o HR Hin Ho) as (r' & Hstep & _).
  exists r, r'. split; [exact Hrun|]. split; [exact Hstep|].
  destruct Hin as (Hrho & Hdet & Hp & Hphase). cbv zeta.
  symmetry in Ho.
  destruct o as [x|x gy|x e g]; cbn [step kind_of] in *.
  - injection Hstep as <-. rewrite Forward_net. unfold Forward_modules.
    assert (Hf : forwardStep r = position R 0 ops).
    { unfold expected in Ho.
      destruct (Z.ltb_spec (position R 0 ops) R);
        [|destruct (position R 0 ops <? 2 * R); discriminate]. lia. }
    rewrite Hf. split; intros Hpos.
    + now rewrite Hpos.
    + apply Z.eqb_neq in Hpos. now rewrite Hpos.
  - injection Hstep as <-. rewrite Backward_net. unfold Backward_modules.
    apply expected_Backward in Ho.
    assert (Hb : backwardStep r = position R 0 ops - R) by lia.
    rewrite rho_minus_1, Hrho, Hb by lia. split; intros Hpos.
    + destruct (Z.ltb_spec (position R 0 ops - R) (R - 1)); [lia|].
      destruct (BackwardVisitor _ _ initialModule (net r)) as [n1 dg].
      reflexivity.
    + destruct (Z.ltb_spec (position R 0 ops - R) (R - 1)); [|lia].
      destruct (BackwardVisitor _ _ inputModule _) as [n2 dg].
      reflexivity.
  - destruct (Gradient_Some x e g r r' Hstep) as (Hm & _).
    unfold Gradient_modules in Hm.
    apply expected_Gradient in Ho.
    assert (Hg : gradientStep r = position R 0 ops - 2 * R) by lia.
    rewrite rho_minus_1, Hrho, Hg in Hm by lia. split; intros Hpos.
    + destruct (Z.ltb_spec (position R 0 ops - 2 * R) (R - 1)); [lia|].
      now injection Hm.
    + destruct (Z.ltb_spec (position R 0 ops - 2 * R) (R - 1)); [|lia].
      destruct (at_index (feedbackOutputParameter r) (history_index r))
        as [saved|]; [|discriminate].
      exists saved. split; [reflexivity|]. now injection Hm.
Qed.

End Further.

(** ** The further properties at work on the small network *)

Lemma run_keeps_configuration_witness :
  run c3_calls (Toy.fresh 2) = Some (toy_state 2 c3_calls) /\
  rho (toy_state 2 c3_calls) = rho (Toy.fresh 2) /\
  deterministic (toy_state 2 c3_calls) = deterministic (Toy.fresh 2) /\
  ownsLayer (toy_state 2 c3_calls) = ownsLayer (Toy.fresh 2) /\
  network (toy_state 2 c3_calls) = network (Toy.fresh 2).
Proof.
  split; [evaluated|].
  apply (run_keeps_configuration c3_calls (Toy.fresh 2)
           (toy_state 2 c3_calls)).
  evaluated.
Defined.

Lemma save_load_round_trip_witness :
  run c3_calls (Toy.fresh 2) = Some (toy_state 2 c3_calls) /\
  rho (serialize_loading (fun n => n) 2 true (Recurrent_default Toy.leaves))
    = rho (toy_state 2 c3_calls) /\
  network (serialize_loading (fun n => n) 2 true
             (Recurrent_default Toy.leaves))
    = network (toy_state 2 c3_calls).
Proof.
  split; [evaluated|].
  destruct (save_load_round_trip Toy.leaves Toy.leaves 2 c3_calls
              (toy_state 2 c3_calls) (fun n => n))
    as (_ & Hr & _ & Hn & _); [evaluated|].
  split; [exact Hr | exact Hn].
Defined.

Lemma forwards_step_periodic_witness :
  (0 < rho (Toy.fresh 3) < size_modulus /\
   0 <= forwardStep (Toy.fresh 3) < rho (Toy.fresh 3)) /\
  forwardStep (forwards [[1]; [2]; [3]; [4]; [5]] (Toy.fresh 3)) =
    (forwardStep (Toy.fresh 3) + size [[1]; [2]; [3]; [4]; [5]])
      mod rho (Toy.fresh 3) /\
  rho (forwards [[1]; [2]; [3]; [4]; [5]] (Toy.fresh 3)) = rho (Toy.fresh 3).
Proof.
  split; [evaluated|].
  apply (forwards_step_periodic [[1]; [2]; [3]; [4]; [5]] (Toy.fresh 3));
    evaluated.
Defined.

Lemma rho_zero_never_resets_witness :
  let r := toy_state 0 [OpBackward [] [5]] in
  (rho r = 0 /\ 0 <= forwardStep r /\
   forwardStep r + size [[1]; [2]; [3]] < size_modulus) /\
  backwardStep r = 1 /\ recurrentError r = [5] /\
  forwardStep (forwards [[1]; [2]; [3]] r) = 3 /\
  backwardStep (forwards [[1]; [2]; [3]] r) = 1 /\
  recurrentError (forwards [[1]; [2]; [3]] r) = [5].
Proof.
  cbv zeta. split; [evaluated|]. split; [reflexivity|].
  split; [reflexivity|].
  destruct (rho_zero_never_resets [[1]; [2]; [3]] [] [] [] []
              (toy_state 0 [OpBackward [] [5]]))
    as ((Hf & Hb & He) & _); [evaluated ..|].
  split; [exact Hf|]. split; [exact Hb | exact He].
Defined.

Lemma rho_one_always_initial_witness :
  (rho (Toy.fresh 1) = 1 /\ 0 <= backwardStep (Toy.fresh 1) /\
   0 <= gradientStep (Toy.fresh 1)) /\
  backward_through_body (Toy.fresh 1) = false /\
  exists r', Gradient [1] [1] [] (Toy.fresh 1) = Some r'.
Proof.
  split; [evaluated|].
  destruct (rho_one_always_initial [1] [1] [] (Toy.fresh 1))
    as (_ & Hb & _ & r' & Hr' & _); [evaluated ..|].
  split; [exact Hb|]. exists r'. exact Hr'.
Defined.

Lemma inference_gradient_out_of_bounds_witness :
  (2 <= 2 < size_modulus /\
   forall o, In o [OpForward [1]; OpForward [2]; OpBackward [] [1]] ->
             kind_of o <> KGradient) /\
  exists r,
    run [OpForward [1]; OpForward [2]; OpBackward [] [1]]
        (set_deterministic true (Toy.fresh 2)) = Some r /\
    feedbackOutputParameter r = [] /\
    history_index r = size_modulus - 2 /\
    Gradient [2] [1] [] r = None.
Proof.
  assert (Hk : forall o : Op Toy.Vec,
             In o [OpForward [1]; OpForward [2]; OpBackward [] [1]] ->
             kind_of o <> KGradient).
  { intros o [<-|[<-|[<-|[]]]]; discriminate. }
  split; [split; [evaluated | exact Hk]|].
  apply (inference_gradient_out_of_bounds Toy.leaves 2
           [OpForward [1]; OpForward [2]; OpBackward [] [1]] [2] [1] []);
    [evaluated | exact Hk].
Defined.

Lemma feedback_reads_previous_output_witness :
  (forall (x : Toy.Vec) (n : Toy.ToyNet),
     outputParameterVisitor transferModule
       (forward_into_own_output x inputModule n) =
     outputParameterVisitor transferModule n) /\
  forwardStep (fst (Forward [1] (Toy.fresh 3))) <> 0 /\
  Toy.calls_since (net (fst (Forward [1] (Toy.fresh 3))))
    (net (fst (Forward [2] (fst (Forward [1] (Toy.fresh 3)))))) =
  [Toy.CallForward [2] inputModule;
   Toy.CallForward (snd (Forward [1] (Toy.fresh 3))) feedbackModule;
   Toy.CallForward [2] recurrentModule].
Proof.
  assert (Hframe : forall (x : Toy.Vec) (n : Toy.ToyNet),
             outputParameterVisitor transferModule
               (forward_into_own_output x inputModule n) =
             outputParameterVisitor transferModule n)
    by (intros x n; reflexivity).
  split; [exact Hframe|]. split; [evaluated|].
  rewrite (feedback_reads_previous_output [1] [2] (Toy.fresh 3) Hframe);
    [reflexivity | evaluated].
Defined.

Lemma window_history_is_forward_outputs_witness :
  let xs := [[1]; [2]; [3]] in
  let rest := [OpBackward [] [1]; OpBackward [] [5]; OpBackward [] [7];
               OpGradient [3] [7] []] in
  (0 < 3 < size_modulus /\
   size xs = 3 /\ size rest < 2 * 3 /\
   documented 3 (map OpForward xs ++ rest)) /\
  exists r,
    run (map OpForward xs ++ rest) (Toy.fresh 3) = Some r /\
    feedbackOutputParameter r = forward_outputs xs (Toy.fresh 3) /\
    (3 <= size rest -> gradientStep r = size rest - 3).
Proof.
  cbv zeta. split; [evaluated|].
  destruct (window_history_is_forward_outputs 3 [[1]; [2]; [3]]
              [OpBackward [] [1]; OpBackward [] [5]; OpBackward [] [7];
               OpGradient [3] [7] []] (Toy.fresh 3))
    as (r & Hrun & Hh & Hg); [evaluated ..|].
  exists r. split; [exact Hrun|]. split; [exact Hh|].
  intros Hge. destruct (Hg Hge) as [Hgs _]. exact Hgs.
Defined.

Lemma initial_serves_window_ends_witness :
  (0 < 2 < size_modulus /\
   documented 2 ([OpForward [1]; OpForward [2]; OpBackward [] [1]]
                 ++ [OpBackward [] [5]])) /\
  exists r r',
    run [OpForward [1]; OpForward [2]; OpBackward [] [1]] (Toy.fresh 2)
      = Some r /\
    step (OpBackward [] [5]) r = Some r' /\
    net r' = fst (BackwardVisitor
                    (outputParameterVisitor initialModule (net r))
                    (accumulate (recurrentError r) [5])
                    initialModule (net r)).
Proof.
  split; [evaluated|].
  destruct (initial_serves_window_ends Toy.leaves 2
              [OpForward [1]; OpForward [2]; OpBackward [] [1]]
              (OpBackward [] [5]))
    as (r & r' & Hrun & Hstep & Hlast & _); [evaluated ..|].
  exists r, r'. split; [exact Hrun|]. split; [exact Hstep|].
  apply Hlast. reflexivity.
Defined.
